(** * The now-playing serverless function (api/now-playing.mjs)

    A shallow embedding of the handler that exchanges a refresh token for an
    access token, asks the streaming service what is playing, falls back on
    the play history and shapes the answer for the frontend.  The current
    revision (api/now-playing.mjs) and the revision before it are both
    embedded, so that they can be compared.

    JavaScript values are the values [JSON.parse] produces, plus
    [undefined].  A promise that rejects and a [throw] are the same thing to
    the code ([await] everywhere), so an asynchronous function is a state
    transformer that either returns or throws; the state holds the outbound
    requests made so far and the platform's response object [res].
    [console.log] calls are not modelled. *)

From Stdlib Require Import ZArith List String Ascii Bool Lia DecimalString.
Import ListNotations.

Set Warnings "-register-all".

Local Open Scope Z_scope.
Local Open Scope list_scope.
Local Open Scope string_scope.

(** ** JavaScript values *)

(** The values the code handles: what [JSON.parse] yields, and [undefined].
    Numbers are the integers (status codes, milliseconds); an object is the
    list of its own properties in enumeration order. *)
Inductive value : Type :=
| VUndefined
| VNull
| VBool (b : bool)
| VNum (n : Z)
| VStr (s : string)
| VArr (elems : list value)
| VObj (props : list (string * value)).

(** What the code can throw.  [Error] is what the source builds with
    [new Error(...)]; [TypeError] and [SyntaxError] come from the engine and
    the platform (a property read on [undefined], a body that is not JSON, a
    network failure), with messages worded as V8 words them, on which
    nothing depends; [Thrown] stands for a value that is not an instance of
    [Error]. *)
Inductive exn : Type :=
| Error (message : string)
| TypeError (message : string)
| SyntaxError (message : string)
| Thrown (v : value).

Definition instanceof_Error (e : exn) : bool :=
  match e with
  | Thrown _ => false
  | _ => true
  end.

Definition message (e : exn) : string :=
  match e with
  | Error m | TypeError m | SyntaxError m => m
  | Thrown _ => ""
  end.

(** A synchronous evaluation either completes with a value or throws. *)
Inductive completion (A : Type) : Type :=
| Return (a : A)
| Throw (e : exn).
Arguments Return {A} a.
Arguments Throw {A} e.

Definition bind_completion {A B} (c : completion A) (k : A -> completion B)
  : completion B :=
  match c with
  | Return a => k a
  | Throw e => Throw e
  end.

Notation "'let?' x ':=' c 'in' k" := (bind_completion c (fun x => k))
  (at level 10, x name, c at level 100, k at level 200).

Definition nullish (v : value) : bool :=
  match v with
  | VUndefined | VNull => true
  | _ => false
  end.

(** ToBoolean. *)
Definition truthy (v : value) : bool :=
  match v with
  | VUndefined | VNull => false
  | VBool b => b
  | VNum n => negb (n =? 0)%Z
  | VStr s => negb (s =? "")%string
  | VArr _ | VObj _ => true
  end.

(** [v === 'text'] against a string literal. *)
Definition strict_eq_string (v : value) (text : string) : bool :=
  match v with
  | VStr s => (s =? text)%string
  | _ => false
  end.

Fixpoint assoc (key : string) (props : list (string * value)) : option value :=
  match props with
  | [] => None
  | (k, v) :: rest => if (k =? key)%string then Some v else assoc key rest
  end.

(** The value of [v.key] when [v] is neither [undefined] nor [null].  The
    keys the program reads ([access_token], [is_playing], [item], [type],
    [name], [artists], [album], [images], [url], [external_urls], [spotify],
    [progress_ms], [duration_ms], [items], [track]) are not properties of
    arrays, strings, numbers or booleans, so only an object can hold one. *)
Definition prop (v : value) (key : string) : value :=
  match v with
  | VObj props =>
      match assoc key props with
      | Some x => x
      | None => VUndefined
      end
  | _ => VUndefined
  end.

Definition show_Z (n : Z) : string := NilZero.string_of_int (Z.to_int n).

Definition describe (v : value) : string :=
  match v with
  | VNull => "null"
  | _ => "undefined"
  end.

(** [v.key]: a TypeError when [v] is [undefined] or [null]. *)
Definition get (v : value) (key : string) : completion value :=
  if nullish v
  then Throw (TypeError ("Cannot read properties of " ++ describe v
                         ++ " (reading '" ++ key ++ "')"))
  else Return (prop v key).

(** [const { key } = v]: a TypeError when [v] is [undefined] or [null]. *)
Definition destructure (v : value) (key : string) : completion value :=
  if nullish v
  then Throw (TypeError ("Cannot destructure property '" ++ key
                         ++ "' of '(intermediate value)' as it is "
                         ++ describe v ++ "."))
  else Return (prop v key).

(** [v?.key]: [undefined] when [v] is [undefined] or [null]. *)
Definition get_optional (v : value) (key : string) : value :=
  if nullish v then VUndefined else prop v key.

(** [v[0]]: the first element of an array, the first character of a string,
    the property ["0"] of an object. *)
Definition first (v : value) : completion value :=
  match v with
  | VUndefined | VNull =>
      Throw (TypeError ("Cannot read properties of " ++ describe v
                        ++ " (reading '0')"))
  | VArr elems => Return (nth 0 elems VUndefined)
  | VStr (String c _) => Return (VStr (String c EmptyString))
  | VObj _ => Return (prop v "0")
  | _ => Return VUndefined
  end.

Definition join_strings (sep : string) (parts : list string) : string :=
  String.concat sep parts.

(** ToString, as template literals and [Array.prototype.join] apply it.
    An array is its elements joined by a comma, [undefined] and [null]
    elements giving the empty string; an object is ["[object Object]"]. *)
Fixpoint to_string (v : value) : string :=
  match v with
  | VUndefined => "undefined"
  | VNull => "null"
  | VBool true => "true"
  | VBool false => "false"
  | VNum n => show_Z n
  | VStr s => s
  | VArr elems =>
      join_strings ","
        ((fix each (l : list value) : list string :=
            match l with
            | [] => []
            | x :: rest => (if nullish x then "" else to_string x) :: each rest
            end) elems)
  | VObj _ => "[object Object]"
  end.

(** [elems.join(sep)] on the elements of an array. *)
Definition join (elems : list value) (sep : string) : string :=
  join_strings sep (map (fun x => if nullish x then "" else to_string x) elems).

Fixpoint map_elems (f : value -> completion value) (elems : list value)
  : completion (list value) :=
  match elems with
  | [] => Return []
  | x :: rest =>
      let? y := f x in
      let? ys := map_elems f rest in
      Return (y :: ys)
  end.

(** [v.map(f)]: only an array has a callable [map]. *)
Definition array_map (v : value) (f : value -> completion value)
  : completion (list value) :=
  match v with
  | VUndefined | VNull =>
      Throw (TypeError ("Cannot read properties of " ++ describe v
                        ++ " (reading 'map')"))
  | VArr elems => map_elems f elems
  | _ => Throw (TypeError "map is not a function")
  end.

(** ** JSON.stringify *)

Definition quote_char : ascii := "034"%char.
Definition backslash : ascii := "092"%char.

Definition hex_digit (n : nat) : ascii :=
  nth n ["0"; "1"; "2"; "3"; "4"; "5"; "6"; "7"; "8"; "9";
         "a"; "b"; "c"; "d"; "e"; "f"]%char "0"%char.

Definition escape_char (c : ascii) : string :=
  let n := nat_of_ascii c in
  if (n =? 34)%nat then String backslash (String quote_char "")
  else if (n =? 92)%nat then String backslash (String backslash "")
  else if (n =? 8)%nat then String backslash "b"
  else if (n =? 9)%nat then String backslash "t"
  else if (n =? 10)%nat then String backslash "n"
  else if (n =? 12)%nat then String backslash "f"
  else if (n =? 13)%nat then String backslash "r"
  else if (n <? 32)%nat
       then String backslash
              ("u00" ++ String (hex_digit (n / 16)) (String (hex_digit (n mod 16)) ""))
  else String c "".

Fixpoint escape (s : string) : string :=
  match s with
  | EmptyString => ""
  | String c rest => escape_char c ++ escape rest
  end.

Definition quote (s : string) : string :=
  String quote_char (escape s ++ String quote_char "").

(** [JSON.stringify(v)]: a property whose value is [undefined] is left out
    of an object, an [undefined] element of an array is written [null].
    For [undefined] itself [JSON.stringify] yields [undefined], which the
    template literal that uses the result renders as the text below. *)
Fixpoint JSON_stringify (v : value) : string :=
  match v with
  | VUndefined => "undefined"
  | VNull => "null"
  | VBool true => "true"
  | VBool false => "false"
  | VNum n => show_Z n
  | VStr s => quote s
  | VArr elems =>
      "[" ++ join_strings ","
        ((fix each (l : list value) : list string :=
            match l with
            | [] => []
            | VUndefined :: rest => "null" :: each rest
            | x :: rest => JSON_stringify x :: each rest
            end) elems) ++ "]"
  | VObj props =>
      "{" ++ join_strings ","
        ((fix each (l : list (string * value)) : list string :=
            match l with
            | [] => []
            | (_, VUndefined) :: rest => each rest
            | (k, x) :: rest => (quote k ++ ":" ++ JSON_stringify x) :: each rest
            end) props) ++ "}"
  end.

(** ** The outside world *)

(** An outbound [fetch]: method, URL, headers and body. *)
Record request : Type := {
  method : string;
  url : string;
  headers : list (string * string);
  body : option string
}.

(** What [response.json()] finds in the body. *)
Inductive parsed : Type :=
| NotJSON (why : string)
| JSON (v : value).

(** The part of a fetch [Response] the code reads. *)
Record response : Type := {
  status : Z;
  payload : parsed
}.

(** [fetch] either rejects (no response at all) or resolves. *)
Inductive outcome : Type :=
| Fails (why : string)
| Responds (r : response).

(** The process environment and the services behind the three endpoints.
    [BASIC_TOKEN] is the Base64 text of [CLIENT_ID:CLIENT_SECRET], which
    the platform computes when the module loads. *)
Record world : Type := {
  BASIC_TOKEN : string;
  REFRESH_TOKEN : string;
  upstream : request -> outcome
}.

(** The platform's response object [res]: status code, header table and
    the data handed to [res.json]. *)
Record ServerResponse : Type := {
  statusCode : Z;
  resHeaders : list (string * string);
  sent : option value
}.

(** The fetch-API [Response] the earlier revision returns. *)
Record Response : Type := {
  init_status : Z;
  init_headers : list (string * string);
  text : string
}.

(** What an invocation can change: the requests made so far, oldest first,
    and [res]. *)
Record state : Type := {
  requests : list request;
  res : ServerResponse
}.

Definition Async (A : Type) : Type := state -> completion A * state.

Definition ret {A} (a : A) : Async A := fun s => (Return a, s).

Definition throw {A} (e : exn) : Async A := fun s => (Throw e, s).

Definition bind {A B} (m : Async A) (k : A -> Async B) : Async B :=
  fun s =>
    match m s with
    | (Return a, s') => k a s'
    | (Throw e, s') => (Throw e, s')
    end.

(** [try { body } catch (error) { handler }] *)
Definition try_catch {A} (body : Async A) (handler : exn -> Async A) : Async A :=
  fun s =>
    match body s with
    | (Return a, s') => (Return a, s')
    | (Throw e, s') => handler e s'
    end.

(** A synchronous evaluation inside an asynchronous function. *)
Definition sync {A} (c : completion A) : Async A := fun s => (c, s).

Notation "'await' x ':=' m 'in' k" := (bind m (fun x => k))
  (at level 10, x name, m at level 100, k at level 200).

Notation "m ';;' k" := (bind m (fun _ => k))
  (at level 100, k at level 200, right associativity).

Definition ok (r : response) : bool :=
  ((200 <=? status r) && (status r <=? 299))%Z.

Definition fetch (w : world) (req : request) : Async response :=
  fun s =>
    let s' := {| requests := requests s ++ [req]; res := res s |} in
    match upstream w req with
    | Fails why => (Throw (TypeError why), s')
    | Responds r => (Return r, s')
    end.

(** [await response.json()] *)
Definition json (r : response) : Async value :=
  match payload r with
  | NotJSON why => throw (SyntaxError why)
  | JSON v => ret v
  end.

(** ** URLSearchParams *)

Definition HEX_digit (n : nat) : ascii :=
  nth n ["0"; "1"; "2"; "3"; "4"; "5"; "6"; "7"; "8"; "9";
         "A"; "B"; "C"; "D"; "E"; "F"]%char "0"%char.

Definition between (lo hi n : nat) : bool := ((lo <=? n) && (n <=? hi))%nat.

(** The application/x-www-form-urlencoded byte serializer: letters, digits
    and [*-._] stay, a space is a plus sign, any other byte is
    percent-encoded. *)
Definition form_encode_char (c : ascii) : string :=
  let n := nat_of_ascii c in
  if between 48 57 n || between 65 90 n || between 97 122 n
     || (n =? 42)%nat || (n =? 45)%nat || (n =? 46)%nat || (n =? 95)%nat
  then String c ""
  else if (n =? 32)%nat then "+"
  else String "%" (String (HEX_digit (n / 16)) (String (HEX_digit (n mod 16)) "")).

Fixpoint form_encode (s : string) : string :=
  match s with
  | EmptyString => ""
  | String c rest => form_encode_char c ++ form_encode rest
  end.

(** [params.toString()] for the appended name and value pairs. *)
Definition URLSearchParams_toString (params : list (string * string)) : string :=
  join_strings "&"
    (map (fun p => form_encode (fst p) ++ "=" ++ form_encode (snd p)) params).

(** ** api/now-playing.mjs *)

Definition NOW_PLAYING_ENDPOINT : string :=
  "https://api.spotify.com/v1/me/player/currently-playing".
Definition RECENTLY_PLAYED_ENDPOINT : string :=
  "https://api.spotify.com/v1/me/player/recently-played".
Definition TOKEN_ENDPOINT : string :=
  "https://accounts.spotify.com/api/token".

Definition token_request (w : world) : request :=
  {| method := "POST";
     url := TOKEN_ENDPOINT;
     headers := [("Authorization", "Basic " ++ BASIC_TOKEN w);
                 ("Content-Type", "application/x-www-form-urlencoded")];
     body := Some (URLSearchParams_toString
                     [("grant_type", "refresh_token");
                      ("refresh_token", REFRESH_TOKEN w)]) |}.

(** A [fetch] with only the bearer header. *)
Definition bearer_request (endpoint : string) (access_token : value) : request :=
  {| method := "GET";
     url := endpoint;
     headers := [("Authorization", "Bearer " ++ to_string access_token)];
     body := None |}.

Definition getAccessToken (w : world) : Async value :=
  await response := fetch w (token_request w) in
  await data := json response in
  if negb (ok response)
  then throw (Error ("Spotify token API returned " ++ show_Z (status response)
                     ++ ": " ++ JSON_stringify data))
  else ret data.

(** [song && song.is_playing && song.item && song.item.type === 'track'] *)
Definition is_active_track (song : value) : completion bool :=
  if negb (truthy song) then Return false else
  let? is_playing := get song "is_playing" in
  if negb (truthy is_playing) then Return false else
  let? item := get song "item" in
  if negb (truthy item) then Return false else
  let? type := get item "type" in
  Return (strict_eq_string type "track").

(** The object literal returned for a track that is playing. *)
Definition playing_result (song : value) : completion value :=
  let? isPlaying := get song "is_playing" in
  let? item := get song "item" in
  let? trackName := get item "name" in
  let? artists := get item "artists" in
  let? names := array_map artists (fun artist => get artist "name") in
  let artistName := VStr (join names ", ") in
  let? album := get item "album" in
  let? images := get album "images" in
  let? image := first images in
  let albumArtUrl := get_optional image "url" in
  let? external_urls := get item "external_urls" in
  let? songUrl := get external_urls "spotify" in
  let? progressMs := get song "progress_ms" in
  let? durationMs := get item "duration_ms" in
  Return (VObj [("status", VStr "playing");
                ("isPlaying", isPlaying);
                ("trackName", trackName);
                ("artistName", artistName);
                ("albumArtUrl", albumArtUrl);
                ("songUrl", songUrl);
                ("progressMs", progressMs);
                ("durationMs", durationMs)]).

(** The object literal returned for the most recent track of the history. *)
Definition last_played_result (lastTrack : value) : completion value :=
  let? trackName := get lastTrack "name" in
  let? artists := get lastTrack "artists" in
  let? names := array_map artists (fun artist => get artist "name") in
  let artistName := VStr (join names ", ") in
  let? album := get lastTrack "album" in
  let? images := get album "images" in
  let? image := first images in
  let albumArtUrl := get_optional image "url" in
  let? external_urls := get lastTrack "external_urls" in
  let? songUrl := get external_urls "spotify" in
  let? durationMs := get lastTrack "duration_ms" in
  Return (VObj [("status", VStr "last_played");
                ("isPlaying", VBool false);
                ("trackName", trackName);
                ("artistName", artistName);
                ("albumArtUrl", albumArtUrl);
                ("songUrl", songUrl);
                ("progressMs", VNum 0);
                ("durationMs", durationMs)]).

Definition offline : value :=
  VObj [("status", VStr "offline"); ("isPlaying", VBool false)].

(** [recentData.items[0]?.track] *)
Definition last_track (recentData : value) : completion value :=
  let? items := get recentData "items" in
  let? item := first items in
  Return (get_optional item "track").

(** Step 2 of [getNowPlaying], "If Nothing is Playing, Check for Recently
    Played": the statements from the second [fetch] to the end of the
    function, which run when the first [if] has not returned. *)
Definition recently_played (w : world) (access_token : value) : Async value :=
  await recentResponse :=
    fetch w (bearer_request (RECENTLY_PLAYED_ENDPOINT ++ "?limit=1") access_token) in
  if negb (ok recentResponse) then ret offline else
  await recentData := json recentResponse in
  await lastTrack := sync (last_track recentData) in
  if truthy lastTrack
  then sync (last_played_result lastTrack)
  else ret offline.

Definition getNowPlaying (w : world) : Async value :=
  await data := getAccessToken w in
  await access_token := sync (destructure data "access_token") in
  if negb (truthy access_token)
  then throw (Error "Could not get access token") else
  await nowPlayingResponse :=
    fetch w (bearer_request NOW_PLAYING_ENDPOINT access_token) in
  if (status nowPlayingResponse =? 200)%Z
  then
    await song := json nowPlayingResponse in
    await active := sync (is_active_track song) in
    if active then sync (playing_result song) else recently_played w access_token
  else recently_played w access_token.

Definition lower_char (c : ascii) : ascii :=
  let n := nat_of_ascii c in
  if between 65 90 n then ascii_of_nat (n + 32) else c.

Fixpoint toLowerCase (s : string) : string :=
  match s with
  | EmptyString => ""
  | String c rest => String (lower_char c) (toLowerCase rest)
  end.

Definition same_header (a b : string) : bool :=
  (toLowerCase a =? toLowerCase b)%string.

Definition lookup_header (table : list (string * string)) (name : string)
  : option string :=
  match find (fun h => same_header (fst h) name) table with
  | Some h => Some (snd h)
  | None => None
  end.

(** The header table with the header [name] replaced by [content]. *)
Definition with_header (table : list (string * string)) (name content : string)
  : list (string * string) :=
  filter (fun h => negb (same_header (fst h) name)) table ++ [(name, content)].

(** [res.getHeader(name)]: header names do not distinguish case. *)
Definition getHeader (r : ServerResponse) (name : string) : option string :=
  lookup_header (resHeaders r) name.

(** [res.setHeader(name, content)] *)
Definition setHeader (name content : string) : Async unit :=
  fun s =>
    (Return tt,
     {| requests := requests s;
        res := {| statusCode := statusCode (res s);
                  resHeaders := with_header (resHeaders (res s)) name content;
                  sent := sent (res s) |} |}).

(** [res.status(code)] *)
Definition set_status (code : Z) : Async unit :=
  fun s =>
    (Return tt,
     {| requests := requests s;
        res := {| statusCode := code;
                  resHeaders := resHeaders (res s);
                  sent := sent (res s) |} |}).

(** [res.json(data)], as far as the source decides it: [data] is handed
    to the platform.  [resHeaders] stays the table of the headers set
    through [setHeader]; what the platform's [res.json] does of its own
    when it transmits (it supplies a [Content-Type], a [Content-Length] and
    an [ETag], and ends the response) is not part of [res] here.  Of these,
    the [Content-Type] is given by [sent_content_type] below. *)
Definition send_json (data : value) : Async unit :=
  fun s =>
    (Return tt,
     {| requests := requests s;
        res := {| statusCode := statusCode (res s);
                  resHeaders := resHeaders (res s);
                  sent := Some data |} |}).


(** The exported handler. *)
Definition handler (w : world) : Async unit :=
  try_catch
    (await data := getNowPlaying w in
     setHeader "Content-Type" "application/json" ;;
     setHeader "cache-control" "public, s-maxage=10, stale-while-revalidate=5" ;;
     set_status 200 ;;
     send_json data)
    (fun error =>
       let errorMessage :=
         if instanceof_Error error then message error else "Unknown error" in
       set_status 500 ;;
       send_json (VObj [("status", VStr "error");
                        ("isPlaying", VBool false);
                        ("error", VStr errorMessage)])).

(** ** The revision before (the first file of the unnamed part) *)

Module Earlier.

Definition RECENTLY_PLAYED_ENDPOINT : string :=
  "http://googleusercontent.com/spotify.com/3".

(** The body is the [URLSearchParams] object itself, which [fetch]
    serialises as [toString] does: the request is the same. *)
Definition getAccessToken (w : world) : Async value :=
  await response := fetch w (token_request w) in
  await data := json response in
  if negb (ok response)
  then throw (Error ("Spotify token API returned " ++ show_Z (status response)
                     ++ ": " ++ JSON_stringify data))
  else ret data.

(** [song.is_playing && song.item && song.item.type === 'track'] *)
Definition is_active_track (song : value) : completion bool :=
  let? is_playing := get song "is_playing" in
  if negb (truthy is_playing) then Return false else
  let? item := get song "item" in
  if negb (truthy item) then Return false else
  let? type := get item "type" in
  Return (strict_eq_string type "track").

Definition recently_played (w : world) (access_token : value) : Async value :=
  await recentResponse :=
    fetch w (bearer_request (RECENTLY_PLAYED_ENDPOINT ++ "?limit=1") access_token) in
  if negb (ok recentResponse)
  then throw (Error ("Spotify recent-played API returned "
                     ++ show_Z (status recentResponse))) else
  await recentData := json recentResponse in
  await lastTrack := sync (last_track recentData) in
  if truthy lastTrack
  then sync (last_played_result lastTrack)
  else ret offline.

Definition getNowPlaying (w : world) : Async value :=
  await data := getAccessToken w in
  await access_token := sync (destructure data "access_token") in
  if negb (truthy access_token)
  then throw (Error "Could not get access token") else
  await nowPlayingResponse :=
    fetch w (bearer_request NOW_PLAYING_ENDPOINT access_token) in
  if (status nowPlayingResponse =? 200)%Z
  then
    await song := json nowPlayingResponse in
    await active := sync (is_active_track song) in
    if active then sync (playing_result song) else recently_played w access_token
  else recently_played w access_token.

(** [error.message] in the catch clause, which does not test the class
    of what it caught. *)
Definition error_message (error : exn) : completion value :=
  match error with
  | Thrown v => get v "message"
  | _ => Return (VStr (message error))
  end.

Definition handler (w : world) : Async Response :=
  try_catch
    (await data := getNowPlaying w in
     ret {| init_status := 200;
            init_headers :=
              [("Content-Type", "application/json");
               ("cache-control", "public, s-maxage=10, stale-while-revalidate=5")];
            text := JSON_stringify data |})
    (fun error =>
       await msg := sync (error_message error) in
       ret {| init_status := 500;
              init_headers := [("Content-Type", "application/json")];
              text := JSON_stringify (VObj [("status", VStr "error");
                                            ("isPlaying", VBool false);
                                            ("error", msg)]) |}).

End Earlier.

(** ** The oldest revision (the second file of the unnamed part) *)

Module Oldest.

(** The template literal of the source ends in a quote and a semicolon,
    which are part of the URL it asks. *)
Definition NOW_PLAYING_ENDPOINT : string :=
  "https://api.spotify.com/v1/me/player/currently-playing';".

Definition getAccessToken (w : world) : Async value :=
  await response := fetch w (token_request w) in
  await data := json response in
  if negb (ok response)
  then throw (Error ("Spotify token API returned " ++ show_Z (status response)
                     ++ ": " ++ JSON_stringify data))
  else ret data.

(** [{ isPlaying: false }] *)
Definition not_playing : value := VObj [("isPlaying", VBool false)].

(** [!song.item || song.item.type !== 'track'] *)
Definition no_track_item (song : value) : completion bool :=
  let? item := get song "item" in
  if negb (truthy item) then Return true else
  let? type := get item "type" in
  Return (negb (strict_eq_string type "track")).

(** The object literal the frontend gets for a track. *)
Definition track_result (song : value) : completion value :=
  let? isPlaying := get song "is_playing" in
  let? item := get song "item" in
  let? trackName := get item "name" in
  let? artists := get item "artists" in
  let? names := array_map artists (fun artist => get artist "name") in
  let artistName := VStr (join names ", ") in
  let? album := get item "album" in
  let? images := get album "images" in
  let? image := first images in
  let albumArtUrl := get_optional image "url" in
  let? external_urls := get item "external_urls" in
  let? songUrl := get external_urls "spotify" in
  let? progressMs := get song "progress_ms" in
  let? durationMs := get item "duration_ms" in
  Return (VObj [("isPlaying", isPlaying);
                ("trackName", trackName);
                ("artistName", artistName);
                ("albumArtUrl", albumArtUrl);
                ("songUrl", songUrl);
                ("progressMs", progressMs);
                ("durationMs", durationMs)]).

Definition getNowPlaying (w : world) : Async value :=
  await data := getAccessToken w in
  await access_token := sync (destructure data "access_token") in
  if negb (truthy access_token)
  then throw (Error "Could not get access token") else
  await response := fetch w (bearer_request NOW_PLAYING_ENDPOINT access_token) in
  if (status response =? 204)%Z then ret not_playing else
  if (status response =? 404)%Z then ret not_playing else
  if negb (ok response)
  then throw (Error ("Spotify API returned " ++ show_Z (status response))) else
  await song := json response in
  await none := sync (no_track_item song) in
  if none then ret not_playing else sync (track_result song).

Definition handler (w : world) : Async Response :=
  try_catch
    (await data := getNowPlaying w in
     ret {| init_status := 200;
            init_headers :=
              [("Content-Type", "application/json");
               ("cache-control", "public, s-maxage=30, stale-while-revalidate=15")];
            text := JSON_stringify data |})
    (fun error =>
       await msg := sync (Earlier.error_message error) in
       ret {| init_status := 500;
              init_headers := [("Content-Type", "application/json")];
              text := JSON_stringify (VObj [("isPlaying", VBool false);
                                            ("error", msg)]) |}).

End Oldest.

(** ** Vocabulary of the statements *)

(** The state after some more requests have gone out. *)
Definition with_requests (s : state) (more : list request) : state :=
  {| requests := requests s ++ more; res := res s |}.

Definition now_playing_request (access_token : value) : request :=
  bearer_request NOW_PLAYING_ENDPOINT access_token.

Definition recently_played_request (access_token : value) : request :=
  bearer_request (RECENTLY_PLAYED_ENDPOINT ++ "?limit=1") access_token.

(** The token endpoint answers with a success status and a JSON body whose
    [access_token] is [access_token], a usable (truthy) token. *)
Definition grants (w : world) (access_token : value) : Prop :=
  exists r data,
    upstream w (token_request w) = Responds r /\
    ok r = true /\
    payload r = JSON data /\
    prop data "access_token" = access_token /\
    truthy access_token = true.

(** The body of a currently-playing answer reports no playing track:
    [is_playing] is false or absent, or the item is absent or is not of
    type ["track"]. *)
Definition no_track_playing (song : value) : Prop :=
  truthy (prop song "is_playing") = false \/
  strict_eq_string (prop (prop song "item") "type") "track" = false.

(** The currently-playing endpoint answers, and not with a playing track:
    the status is not 200 (204 and 404 among them), or it is 200 with a
    JSON body that reports no playing track. *)
Definition nothing_playing (w : world) (access_token : value) : Prop :=
  exists r,
    upstream w (now_playing_request access_token) = Responds r /\
    (status r <> 200 \/
     exists song, payload r = JSON song /\ no_track_playing song).

(** A track object as the upstream API sends it, as far as the code relies
    on it: a list of artists none of which is [null], an album with its
    [images], and the [external_urls]. *)
Definition track_object (t : value) : bool :=
  match prop t "artists" with
  | VArr artists => forallb (fun artist => negb (nullish artist)) artists
  | _ => false
  end
  && negb (nullish (prop t "album"))
  && negb (nullish (prop (prop t "album") "images"))
  && negb (nullish (prop t "external_urls")).

(** The names of the artists of a track, joined. *)
Definition artist_names (t : value) : string :=
  match prop t "artists" with
  | VArr artists => join (map (fun artist => prop artist "name") artists) ", "
  | _ => ""
  end.

(** [v[0]] where it does not throw: the first entry of a list,
    [undefined] when there is none. *)
Definition first_of (v : value) : value :=
  match first v with
  | Return image => image
  | Throw _ => VUndefined
  end.

(** The URL of the first image of the album of a track, if any. *)
Definition album_art (t : value) : value :=
  get_optional (first_of (prop (prop t "album") "images")) "url".

(** The [isPlaying] of [v] is the [is_playing] of the JSON body that the
    currently-playing service of [w] sends. *)
Definition forwards_is_playing (w : world) (v : value) : Prop :=
  exists access_token r song,
    upstream w (now_playing_request access_token) = Responds r /\
    payload r = JSON song /\
    prop v "isPlaying" = prop song "is_playing".

(** The three kinds of object [getNowPlaying] can return. *)
Definition result_shape (w : world) (v : value) : Prop :=
  (prop v "status" = VStr "playing" /\ truthy (prop v "isPlaying") = true /\
   forwards_is_playing w v) \/
  (prop v "status" = VStr "last_played" /\ prop v "isPlaying" = VBool false) \/
  v = offline.

(** An asynchronous computation that leaves [res] as it found it. *)
Definition keeps_res {A} (m : Async A) : Prop :=
  forall s, res (snd (m s)) = res s.

(** The request of the earlier revision to its history endpoint. *)
Definition earlier_history_request (access_token : value) : request :=
  bearer_request (Earlier.RECENTLY_PLAYED_ENDPOINT ++ "?limit=1") access_token.

(** The request of the oldest revision to its playback endpoint. *)
Definition oldest_now_playing_request (access_token : value) : request :=
  bearer_request Oldest.NOW_PLAYING_ENDPOINT access_token.

(** The currently-playing answer cannot be used: the request is rejected,
    or the answer has status 200 and a body that is not JSON. *)
Definition now_playing_unreadable (w : world) (access_token : value)
           (why : string) : Prop :=
  upstream w (now_playing_request access_token) = Fails why \/
  exists r,
    upstream w (now_playing_request access_token) = Responds r /\
    status r = 200 /\ payload r = NotJSON why.

(** The recently-played answer cannot be used: the request is rejected,
    or the answer is a success with a body that is not JSON. *)
Definition history_unreadable (w : world) (access_token : value)
           (why : string) : Prop :=
  upstream w (recently_played_request access_token) = Fails why \/
  exists r,
    upstream w (recently_played_request access_token) = Responds r /\
    ok r = true /\ payload r = NotJSON why.

(** What one run of [getNowPlaying] comes to, with the requests it makes,
    oldest first. *)
Inductive invocation (w : world) : completion value -> list request -> Prop :=
| token_failed e :
    invocation w (Throw e) [token_request w]
| playback_failed access_token e :
    truthy access_token = true ->
    invocation w (Throw e)
               [token_request w; now_playing_request access_token]
| track_playing access_token v :
    truthy access_token = true ->
    prop v "status" = VStr "playing" ->
    invocation w (Return v)
               [token_request w; now_playing_request access_token]
| history_failed access_token e :
    truthy access_token = true ->
    invocation w (Throw e)
               [token_request w; now_playing_request access_token;
                recently_played_request access_token]
| history_answered access_token v :
    truthy access_token = true ->
    prop v "status" <> VStr "playing" ->
    invocation w (Return v)
               [token_request w; now_playing_request access_token;
                recently_played_request access_token].

(** An asynchronous computation that throws instances of [Error] only. *)
Definition throws_errors {A} (m : Async A) : Prop :=
  forall s e s', m s = (Throw e, s') -> instanceof_Error e = true.

(** A synchronous evaluation that throws instances of [Error] only. *)
Definition raises_errors {A} (c : completion A) : Prop :=
  forall e, c = Throw e -> instanceof_Error e = true.

(** The body the current handler sends for an error. *)
Definition error_body (e : exn) : value :=
  VObj [("status", VStr "error");
        ("isPlaying", VBool false);
        ("error", VStr (message e))].

(** ** Sample upstream states *)

Definition sample_track : value :=
  VObj [("name", VStr "Blue in Green");
        ("type", VStr "track");
        ("artists", VArr [VObj [("name", VStr "Miles Davis")];
                          VObj [("name", VStr "Bill Evans")]]);
        ("album", VObj [("images", VArr [VObj [("url", VStr "https://i.scdn.co/image/ab67")]])]);
        ("external_urls", VObj [("spotify", VStr "https://open.spotify.com/track/0aWMVrwx")]);
        ("duration_ms", VNum 337000)].

(** The same track with an album that has no cover. *)
Definition sample_track_no_art : value :=
  VObj [("name", VStr "Blue in Green");
        ("type", VStr "track");
        ("artists", VArr [VObj [("name", VStr "Miles Davis")];
                          VObj [("name", VStr "Bill Evans")]]);
        ("album", VObj [("images", VArr [])]);
        ("external_urls", VObj [("spotify", VStr "https://open.spotify.com/track/0aWMVrwx")]);
        ("duration_ms", VNum 337000)].

Definition sample_song : value :=
  VObj [("is_playing", VBool true);
        ("progress_ms", VNum 41000);
        ("item", sample_track)].

Definition sample_paused : value :=
  VObj [("is_playing", VBool false);
        ("progress_ms", VNum 41000);
        ("item", sample_track)].

Definition sample_history : value :=
  VObj [("items", VArr [VObj [("track", sample_track)]])].

Definition sample_token : value :=
  VObj [("access_token", VStr "BQDx"); ("token_type", VStr "Bearer");
        ("expires_in", VNum 3600)].

Definition answer (code : Z) (v : value) : outcome :=
  Responds {| status := code; payload := JSON v |}.

Definition no_content (code : Z) : outcome :=
  Responds {| status := code; payload := NotJSON "Unexpected end of JSON input" |}.

(** A world whose three services answer as given, whatever the request;
    any URL other than the first two is served by the history service. *)
Definition services (token now_playing recent : outcome) : world :=
  {| BASIC_TOKEN := "Y2xpZW50OnNlY3JldA==";
     REFRESH_TOKEN := "AQCrefresh";
     upstream := fun req =>
       if (url req =? TOKEN_ENDPOINT)%string then token
       else if (url req =? NOW_PLAYING_ENDPOINT)%string then now_playing
       else recent |}.

Definition fresh : state :=
  {| requests := [];
     res := {| statusCode := 200; resHeaders := []; sent := None |} |}.

Definition world_playing : world :=
  services (answer 200 sample_token) (answer 200 sample_song) (answer 200 sample_history).

Definition world_paused : world :=
  services (answer 200 sample_token) (answer 200 sample_paused) (answer 200 sample_history).

Definition world_idle : world :=
  services (answer 200 sample_token) (no_content 204) (answer 200 sample_history).

Definition world_no_history : world :=
  services (answer 200 sample_token) (no_content 204)
           (answer 200 (VObj [("items", VArr [])])).

Definition world_history_down : world :=
  services (answer 200 sample_token) (no_content 204)
           (answer 500 (VObj [("error", VStr "server error")])).

Definition world_bad_refresh_token : world :=
  services (answer 401 (VObj [("error", VStr "invalid_grant")]))
           (no_content 204) (answer 200 sample_history).

Definition world_no_access_token : world :=
  services (answer 200 (VObj [("token_type", VStr "Bearer")]))
           (answer 200 sample_song) (answer 200 sample_history).

(** A currently-playing body whose item has the type ["track"] and
    nothing else. *)
Definition bare_song : value :=
  VObj [("is_playing", VBool true);
        ("progress_ms", VNum 41000);
        ("item", VObj [("type", VStr "track")])].

Definition world_bare_item : world :=
  services (answer 200 sample_token) (answer 200 bare_song) (answer 200 sample_history).

(** A history whose most recent track has a name and nothing else. *)
Definition bare_history : value :=
  VObj [("items", VArr [VObj [("track", VObj [("name", VStr "Blue in Green")])]])].

Definition world_bare_history : world :=
  services (answer 200 sample_token) (no_content 204) (answer 200 bare_history).

(** A gateway in front of the token endpoint answers 503 with a page of
    HTML. *)
Definition gateway_error : response :=
  {| status := 503; payload := NotJSON "Unexpected token < in JSON at position 0" |}.

Definition world_gateway_error : world :=
  services (Responds gateway_error) (no_content 204) (answer 200 sample_history).

(** A currently-playing body whose [is_playing] is the number 1. *)
Definition numeric_flag_song : value :=
  VObj [("is_playing", VNum 1);
        ("progress_ms", VNum 41000);
        ("item", sample_track)].

Definition world_numeric_flag : world :=
  services (answer 200 sample_token) (answer 200 numeric_flag_song)
           (answer 200 sample_history).

(** A track whose album has no cover and which has no list of artists. *)
Definition track_without_artists : value :=
  VObj [("name", VStr "Blue in Green");
        ("type", VStr "track");
        ("album", VObj [("images", VArr [])]);
        ("external_urls", VObj [("spotify", VStr "https://open.spotify.com/track/0aWMVrwx")]);
        ("duration_ms", VNum 337000)].

(** The token endpoint answers 200 with the JSON body [null]. *)
Definition world_null_token : world :=
  services (answer 200 VNull) (answer 200 sample_song) (answer 200 sample_history).

(** [text.includes(part)] *)
Fixpoint includes (text part : string) : bool :=
  String.prefix part text
  || match text with
     | EmptyString => false
     | String _ rest => includes rest part
     end.

(** Worlds in which a request is rejected by the network. *)
Definition world_token_unreachable : world :=
  services (Fails "fetch failed") (no_content 204) (answer 200 sample_history).

Definition world_playback_unreachable : world :=
  services (answer 200 sample_token) (Fails "fetch failed") (answer 200 sample_history).

Definition world_history_unreachable : world :=
  services (answer 200 sample_token) (no_content 204) (Fails "fetch failed").

(** The token endpoint answers 200 with an empty [access_token]. *)
Definition world_empty_access_token : world :=
  services (answer 200 (VObj [("access_token", VStr "")]))
           (answer 200 sample_song) (answer 200 sample_history).

(** The token endpoint answers 200 with a body that is not JSON. *)
Definition world_garbled_token : world :=
  services (no_content 200) (answer 200 sample_song) (answer 200 sample_history).

(** The history holds one entry, whose track is [null]. *)
Definition history_without_track : value :=
  VObj [("items", VArr [VObj [("track", VNull)]])].

Definition world_history_without_track : world :=
  services (answer 200 sample_token) (no_content 204)
           (answer 200 history_without_track).

(** The currently-playing endpoint answers 200 with the body [null]. *)
Definition world_null_song : world :=
  services (answer 200 sample_token) (answer 200 VNull) (answer 200 sample_history).

(** A response object that already carries headers. *)
Definition used : state :=
  {| requests := [];
     res := {| statusCode := 200;
               resHeaders := [("X-Powered-By", "Express");
                              ("CACHE-CONTROL", "no-store")];
               sent := None |} |}.

(** Worlds for the oldest revision: its playback URL is neither of the
    first two of [services], so the third service answers it. *)
Definition oldest_world (token now_playing : outcome) : world :=
  services token (no_content 204) now_playing.

(** ** Running asynchronous code *)

Arguments get : simpl never.
Arguments prop : simpl never.
Arguments first : simpl never.
Arguments show_Z : simpl never.
Arguments JSON_stringify : simpl never.
Arguments to_string : simpl never.

Lemma bind_return {A B} (m : Async A) (k : A -> Async B) s a s' :
  m s = (Return a, s') -> bind m k s = k a s'.
Proof. intros H. unfold bind. now rewrite H. Qed.

Lemma bind_throw {A B} (m : Async A) (k : A -> Async B) s e s' :
  m s = (Throw e, s') -> bind m k s = (Throw e, s').
Proof. intros H. unfold bind. now rewrite H. Qed.

Lemma try_catch_return {A} (m : Async A) h s a s' :
  m s = (Return a, s') -> try_catch m h s = (Return a, s').
Proof. intros H. unfold try_catch. now rewrite H. Qed.

Lemma try_catch_throw {A} (m : Async A) h s e s' :
  m s = (Throw e, s') -> try_catch m h s = h e s'.
Proof. intros H. unfold try_catch. now rewrite H. Qed.

Lemma with_requests_app s a b :
  with_requests (with_requests s a) b = with_requests s (a ++ b).
Proof. unfold with_requests. cbn. now rewrite app_assoc. Qed.

Lemma fetch_responds w req r s :
  upstream w req = Responds r ->
  fetch w req s = (Return r, with_requests s [req]).
Proof. intros H. unfold fetch. now rewrite H. Qed.

Lemma fetch_fails w req why s :
  upstream w req = Fails why ->
  fetch w req s = (Throw (TypeError why), with_requests s [req]).
Proof. intros H. unfold fetch. now rewrite H. Qed.

Lemma json_parsed r v s :
  payload r = JSON v -> json r s = (Return v, s).
Proof. intros H. unfold json. now rewrite H. Qed.

(** Rewrites the run of a [bind] whose first part is known. *)
Ltac step H :=
  first [ erewrite bind_return by (exact H)
        | erewrite bind_throw by (exact H) ].

(** ** Reading values *)

Lemma truthy_not_nullish v : truthy v = true -> nullish v = false.
Proof. destruct v; simpl; congruence. Qed.

Lemma falsy_prop v key : truthy v = false -> prop v key = VUndefined.
Proof. destruct v; unfold prop; simpl; congruence. Qed.

Lemma get_present v :
  nullish v = false -> forall key, get v key = Return (prop v key).
Proof. intros H key. unfold get. now rewrite H. Qed.

Lemma first_present v : nullish v = false -> first v = Return (first_of v).
Proof.
  intros H. unfold first_of.
  destruct v as [ | | b | n | [ | c rest] | elems | props];
    unfold first; simpl in *; congruence.
Qed.

Lemma map_elems_names artists :
  forallb (fun artist => negb (nullish artist)) artists = true ->
  map_elems (fun artist => get artist "name") artists
  = Return (map (fun artist => prop artist "name") artists).
Proof.
  induction artists as [ | a rest IH]; simpl; intros H.
  - reflexivity.
  - apply andb_true_iff in H as [Ha Hrest].
    apply negb_true_iff in Ha.
    rewrite (get_present _ Ha). simpl.
    now rewrite (IH Hrest).
Qed.

(** The guard of the first [if] never throws in the current revision, and
    holds exactly when [is_playing] is truthy and the item is a track. *)
Lemma is_active_track_spec song :
  is_active_track song
  = Return (truthy (prop song "is_playing")
            && strict_eq_string (prop (prop song "item") "type") "track").
Proof.
  unfold is_active_track.
  destruct (truthy song) eqn:Hsong; simpl.
  - pose proof (truthy_not_nullish _ Hsong) as Hn.
    rewrite !(get_present _ Hn). simpl.
    destruct (truthy (prop song "is_playing")) eqn:Hp; simpl; [ | reflexivity].
    destruct (truthy (prop song "item")) eqn:Hi; simpl.
    + now rewrite (get_present _ (truthy_not_nullish _ Hi)).
    + now rewrite (falsy_prop _ "type" Hi).
  - now rewrite (falsy_prop _ "is_playing" Hsong).
Qed.

Lemma track_object_fields t :
  track_object t = true ->
  nullish t = false /\
  (exists artists,
      prop t "artists" = VArr artists /\
      forallb (fun artist => negb (nullish artist)) artists = true) /\
  nullish (prop t "album") = false /\
  nullish (prop (prop t "album") "images") = false /\
  nullish (prop t "external_urls") = false.
Proof.
  unfold track_object. intros H.
  repeat (apply andb_true_iff in H as [H ?]).
  repeat match goal with
         | Hn : negb _ = true |- _ => apply negb_true_iff in Hn
         end.
  destruct (prop t "artists") as [ | | | | | artists | ] eqn:Hartists;
    try discriminate.
  repeat split; try assumption.
  - destruct t; unfold prop in Hartists; simpl in *; congruence.
  - now exists artists.
Qed.

(** The fields both object literals take from a track. *)
Lemma last_played_result_track t :
  track_object t = true ->
  last_played_result t
  = Return (VObj [("status", VStr "last_played");
                  ("isPlaying", VBool false);
                  ("trackName", prop t "name");
                  ("artistName", VStr (artist_names t));
                  ("albumArtUrl", album_art t);
                  ("songUrl", prop (prop t "external_urls") "spotify");
                  ("progressMs", VNum 0);
                  ("durationMs", prop t "duration_ms")]).
Proof.
  intros H.
  destruct (track_object_fields t H)
    as (Ht & (artists & Hartists & Hall) & Halbum & Himages & Hurls).
  unfold last_played_result, album_art, artist_names.
  rewrite !(get_present _ Ht). simpl.
  rewrite Hartists. simpl. rewrite (map_elems_names _ Hall). simpl.
  rewrite !(get_present _ Halbum). simpl.
  rewrite (first_present _ Himages). simpl.
  rewrite !(get_present _ Hurls). simpl.
  reflexivity.
Qed.

Lemma playing_result_track song t :
  nullish song = false ->
  prop song "item" = t ->
  track_object t = true ->
  playing_result song
  = Return (VObj [("status", VStr "playing");
                  ("isPlaying", prop song "is_playing");
                  ("trackName", prop t "name");
                  ("artistName", VStr (artist_names t));
                  ("albumArtUrl", album_art t);
                  ("songUrl", prop (prop t "external_urls") "spotify");
                  ("progressMs", prop song "progress_ms");
                  ("durationMs", prop t "duration_ms")]).
Proof.
  intros Hsong Hitem H.
  destruct (track_object_fields t H)
    as (Ht & (artists & Hartists & Hall) & Halbum & Himages & Hurls).
  unfold playing_result, album_art, artist_names.
  rewrite !(get_present _ Hsong). simpl. rewrite Hitem.
  rewrite !(get_present _ Ht). simpl.
  rewrite Hartists. simpl. rewrite (map_elems_names _ Hall). simpl.
  rewrite !(get_present _ Halbum). simpl.
  rewrite (first_present _ Himages). simpl.
  rewrite !(get_present _ Hurls). simpl.
  reflexivity.
Qed.

(** ** Texts *)

Lemma append_assoc (a b c : string) : (a ++ b) ++ c = a ++ b ++ c.
Proof. induction a as [ | x a IH]; simpl; [reflexivity | now rewrite IH]. Qed.

Lemma prefix_append part rest : String.prefix part (part ++ rest) = true.
Proof.
  induction part as [ | c part IH]; simpl.
  - now destruct rest.
  - destruct (ascii_dec c c) as [_ | Hc]; [exact IH | contradiction].
Qed.

Lemma includes_prefix text part :
  String.prefix part text = true -> includes text part = true.
Proof.
  intros H. destruct text as [ | c text].
  - unfold includes. now rewrite H.
  - change (String.prefix part (String c text) || includes text part = true).
    now rewrite H.
Qed.

Lemma includes_append before part rest :
  includes (before ++ part ++ rest) part = true.
Proof.
  induction before as [ | c before IH].
  - change (includes (part ++ rest) part = true).
    apply includes_prefix, prefix_append.
  - change (String.prefix part (String c (before ++ part ++ rest))
            || includes (before ++ part ++ rest) part = true).
    rewrite IH. apply orb_true_r.
Qed.

Lemma includes_end before part :
  includes (before ++ part) part = true.
Proof.
  replace (before ++ part) with (before ++ part ++ "").
  - apply includes_append.
  - f_equal. induction part as [ | c part IH]; simpl; [reflexivity | now rewrite IH].
Qed.

(** ** The three steps of [getNowPlaying] *)

Lemma getAccessToken_ok w s r data :
  upstream w (token_request w) = Responds r ->
  ok r = true ->
  payload r = JSON data ->
  getAccessToken w s = (Return data, with_requests s [token_request w]).
Proof.
  intros Hup Hok Hpay. unfold getAccessToken.
  step (fetch_responds _ _ _ s Hup).
  step (json_parsed _ _ (with_requests s [token_request w]) Hpay).
  now rewrite Hok.
Qed.

Lemma getAccessToken_granted w access_token s :
  grants w access_token ->
  exists data,
    getAccessToken w s = (Return data, with_requests s [token_request w]) /\
    destructure data "access_token" = Return access_token.
Proof.
  intros (r & data & Hup & Hok & Hpay & Htok & Htruthy).
  exists data. split.
  - exact (getAccessToken_ok w s r data Hup Hok Hpay).
  - assert (Hdata : nullish data = false).
    { destruct data; unfold prop in Htok; simpl in *; subst; try discriminate;
        reflexivity. }
    unfold destructure. now rewrite Hdata, Htok.
Qed.

(** With a token granted and no track playing, [getNowPlaying] is its
    second step, run after the two requests of the first step. *)
Lemma reaches_recently_played w access_token s :
  grants w access_token ->
  nothing_playing w access_token ->
  getNowPlaying w s
  = recently_played w access_token
      (with_requests s [token_request w; now_playing_request access_token]).
Proof.
  intros Hgrant (r & Hup & Hnone).
  destruct (getAccessToken_granted w access_token s Hgrant) as (data & Hrun & Hget).
  assert (Htruthy : truthy access_token = true)
    by (destruct Hgrant as (? & ? & ? & ? & ? & ? & ?); assumption).
  unfold getNowPlaying.
  step Hrun. unfold sync at 1. unfold bind at 1. rewrite Hget, Htruthy. simpl.
  step (fetch_responds _ _ _ (with_requests s [token_request w]) Hup).
  rewrite with_requests_app. simpl.
  destruct Hnone as [Hstatus | (song & Hpay & Hnone)].
  - apply Z.eqb_neq in Hstatus. now rewrite Hstatus.
  - destruct (status r =? 200)%Z; [ | reflexivity].
    step (json_parsed _ _
            (with_requests s [token_request w; now_playing_request access_token]) Hpay).
    unfold sync at 1. unfold bind at 1. rewrite is_active_track_spec.
    destruct Hnone as [H | H]; rewrite H; [ | rewrite andb_false_r]; reflexivity.
Qed.

(** With a token granted, a 200 answer of the first query whose body
    passes the guard makes [getNowPlaying] return the first object
    literal. *)
Lemma returns_playing_result w access_token s r song :
  grants w access_token ->
  upstream w (now_playing_request access_token) = Responds r ->
  status r = 200 ->
  payload r = JSON song ->
  truthy (prop song "is_playing") = true ->
  strict_eq_string (prop (prop song "item") "type") "track" = true ->
  getNowPlaying w s
  = (playing_result song,
     with_requests s [token_request w; now_playing_request access_token]).
Proof.
  intros Hgrant Hup Hstatus Hpay Hplaying Htype.
  destruct (getAccessToken_granted w access_token s Hgrant) as (data & Hrun & Hget).
  assert (Htruthy : truthy access_token = true)
    by (destruct Hgrant as (? & ? & ? & ? & ? & ? & ?); assumption).
  unfold getNowPlaying.
  step Hrun. unfold sync at 1. unfold bind at 1. rewrite Hget, Htruthy. simpl.
  step (fetch_responds _ _ _ (with_requests s [token_request w]) Hup).
  rewrite with_requests_app. simpl.
  rewrite Hstatus. simpl.
  step (json_parsed _ _
          (with_requests s [token_request w; now_playing_request access_token]) Hpay).
  unfold sync at 1. unfold bind at 1.
  rewrite is_active_track_spec, Hplaying, Htype. reflexivity.
Qed.

Lemma recently_played_not_ok w access_token s r :
  upstream w (recently_played_request access_token) = Responds r ->
  ok r = false ->
  recently_played w access_token s
  = (Return offline, with_requests s [recently_played_request access_token]).
Proof.
  intros Hup Hok. unfold recently_played.
  step (fetch_responds _ _ _ s Hup). now rewrite Hok.
Qed.

Lemma recently_played_ok w access_token s r recentData :
  upstream w (recently_played_request access_token) = Responds r ->
  ok r = true ->
  payload r = JSON recentData ->
  recently_played w access_token s
  = (await lastTrack := sync (last_track recentData) in
     if truthy lastTrack
     then sync (last_played_result lastTrack)
     else ret offline)
      (with_requests s [recently_played_request access_token]).
Proof.
  intros Hup Hok Hpay. unfold recently_played.
  step (fetch_responds _ _ _ s Hup). rewrite Hok. simpl.
  now step (json_parsed _ _
              (with_requests s [recently_played_request access_token]) Hpay).
Qed.

(** ** What every result looks like *)

Lemma bind_completion_inv {A B} (c : completion A) (k : A -> completion B) b :
  bind_completion c k = Return b -> exists a, c = Return a /\ k a = Return b.
Proof. destruct c as [a | e]; simpl; intros H; [now exists a | discriminate]. Qed.

Lemma bind_inv {A B} (m : Async A) (k : A -> Async B) s c s' :
  bind m k s = (c, s') ->
  (exists a s1, m s = (Return a, s1) /\ k a s1 = (c, s')) \/
  (exists e, m s = (Throw e, s') /\ c = Throw e).
Proof.
  unfold bind. destruct (m s) as [[a | e] s1]; intros H.
  - left. now exists a, s1.
  - right. exists e. now inversion H.
Qed.

Lemma get_inv v key x : get v key = Return x -> x = prop v key.
Proof. unfold get. destruct (nullish v); congruence. Qed.

(** Splits the hypothesis that a chain of [let?] has returned. *)
Ltac open_literal H :=
  repeat (let a := fresh "field" in
          let Ha := fresh "Hfield" in
          apply bind_completion_inv in H as (a & Ha & H)).

Lemma playing_result_inv song v :
  playing_result song = Return v ->
  prop v "status" = VStr "playing" /\
  prop v "isPlaying" = prop song "is_playing".
Proof.
  unfold playing_result. intros H.
  apply bind_completion_inv in H as (isPlaying & His & H).
  apply get_inv in His. open_literal H.
  inversion H. subst. split; reflexivity.
Qed.

Lemma last_played_result_inv t v :
  last_played_result t = Return v ->
  prop v "status" = VStr "last_played" /\
  prop v "isPlaying" = VBool false.
Proof.
  unfold last_played_result. intros H. open_literal H.
  inversion H. split; reflexivity.
Qed.

Lemma recently_played_shape w access_token s v s' :
  recently_played w access_token s = (Return v, s') -> result_shape w v.
Proof.
  unfold recently_played. intros H.
  apply bind_inv in H as [(r & s1 & _ & H) | (e & _ & H)]; [ | discriminate].
  destruct (ok r); simpl in H.
  - apply bind_inv in H as [(recentData & s2 & _ & H) | (e & _ & H)];
      [ | discriminate].
    apply bind_inv in H as [(lastTrack & s3 & _ & H) | (e & _ & H)];
      [ | discriminate].
    destruct (truthy lastTrack).
    + unfold sync in H. inversion H as [[Hresult Hstate]].
      right. left. now apply last_played_result_inv with (t := lastTrack).
    + inversion H. right. right. reflexivity.
  - inversion H. right. right. reflexivity.
Qed.

Lemma fetch_inv w req s r s' :
  fetch w req s = (Return r, s') -> upstream w req = Responds r.
Proof.
  unfold fetch. destruct (upstream w req) as [why | r0]; intros H;
    inversion H; reflexivity.
Qed.

Lemma json_inv r s v s' :
  json r s = (Return v, s') -> payload r = JSON v.
Proof.
  unfold json. destruct (payload r) as [why | v0]; intros H;
    inversion H; reflexivity.
Qed.

Lemma getNowPlaying_shape w s v s' :
  getNowPlaying w s = (Return v, s') -> result_shape w v.
Proof.
  unfold getNowPlaying. intros H.
  apply bind_inv in H as [(data & s1 & _ & H) | (e & _ & H)]; [ | discriminate].
  apply bind_inv in H as [(access_token & s2 & _ & H) | (e & _ & H)];
    [ | discriminate].
  destruct (truthy access_token); simpl in H; [ | discriminate].
  apply bind_inv in H as [(r & s3 & Hfetch & H) | (e & _ & H)]; [ | discriminate].
  apply fetch_inv in Hfetch.
  destruct (status r =? 200)%Z; [ | now apply recently_played_shape in H].
  apply bind_inv in H as [(song & s4 & Hjson & H) | (e & _ & H)]; [ | discriminate].
  apply json_inv in Hjson.
  apply bind_inv in H as [(active & s5 & Hactive & H) | (e & _ & H)];
    [ | discriminate].
  unfold sync in Hactive. rewrite is_active_track_spec in Hactive.
  inversion Hactive as [[Hguard Hstate]]. clear Hactive.
  destruct active; [ | now apply recently_played_shape in H].
  apply andb_true_iff in Hguard as [Hplaying _].
  unfold sync in H. inversion H as [[Hresult Hstate']].
  apply playing_result_inv in Hresult as [Hstatus His].
  left. split; [assumption | ]. split; [now rewrite His | ].
  now exists access_token, r, song.
Qed.

(** ** [getNowPlaying] leaves [res] alone *)

Lemma keeps_res_bind {A B} (m : Async A) (k : A -> Async B) :
  keeps_res m -> (forall a, keeps_res (k a)) -> keeps_res (bind m k).
Proof.
  intros Hm Hk s. unfold bind. specialize (Hm s).
  destruct (m s) as [[a | e] s1]; simpl in *.
  - now rewrite Hk.
  - assumption.
Qed.

Lemma keeps_res_fetch w req : keeps_res (fetch w req).
Proof. intros s. unfold fetch. now destruct (upstream w req). Qed.

Lemma keeps_res_json r : keeps_res (json r).
Proof. intros s. unfold json. now destruct (payload r). Qed.

Lemma keeps_res_sync {A} (c : completion A) : keeps_res (sync c).
Proof. intros s. reflexivity. Qed.

Lemma keeps_res_ret {A} (a : A) : keeps_res (ret a).
Proof. intros s. reflexivity. Qed.

Lemma keeps_res_throw {A} e : keeps_res (@throw A e).
Proof. intros s. reflexivity. Qed.

Lemma keeps_res_if {A} (b : bool) (m1 m2 : Async A) :
  keeps_res m1 -> keeps_res m2 -> keeps_res (if b then m1 else m2).
Proof. now destruct b. Qed.

Create HintDb frame.
#[local] Hint Resolve keeps_res_fetch keeps_res_json keeps_res_sync
  keeps_res_ret keeps_res_throw : frame.

Ltac frame :=
  repeat first [ apply keeps_res_bind; [ | intro ]
               | apply keeps_res_if
               | solve [auto with frame] ].

Lemma keeps_res_getAccessToken w : keeps_res (getAccessToken w).
Proof. unfold getAccessToken. frame. Qed.

Lemma keeps_res_recently_played w access_token :
  keeps_res (recently_played w access_token).
Proof. unfold recently_played. frame. Qed.

#[local] Hint Resolve keeps_res_getAccessToken keeps_res_recently_played : frame.

Lemma keeps_res_getNowPlaying w : keeps_res (getNowPlaying w).
Proof. unfold getNowPlaying. frame. Qed.

(** ** The two paths of the handler *)

Lemma handler_success w s data s' :
  getNowPlaying w s = (Return data, s') ->
  handler w s
  = (Return tt,
     {| requests := requests s';
        res := {| statusCode := 200;
                  resHeaders :=
                    with_header
                      (with_header (resHeaders (res s))
                                   "Content-Type" "application/json")
                      "cache-control"
                      "public, s-maxage=10, stale-while-revalidate=5";
                  sent := Some data |} |}).
Proof.
  intros H. pose proof (keeps_res_getNowPlaying w s) as Hres.
  rewrite H in Hres. simpl in Hres.
  unfold handler. erewrite try_catch_return; [reflexivity | ].
  step H. unfold bind, setHeader, set_status, send_json. cbn [res resHeaders].
  now rewrite Hres.
Qed.

Lemma handler_failure w s e s' :
  getNowPlaying w s = (Throw e, s') ->
  handler w s
  = (Return tt,
     {| requests := requests s';
        res := {| statusCode := 500;
                  resHeaders := resHeaders (res s);
                  sent := Some (VObj [("status", VStr "error");
                                      ("isPlaying", VBool false);
                                      ("error",
                                       VStr (if instanceof_Error e
                                             then message e
                                             else "Unknown error"))]) |} |}).
Proof.
  intros H. pose proof (keeps_res_getNowPlaying w s) as Hres.
  rewrite H in Hres. simpl in Hres.
  unfold handler. erewrite try_catch_throw by (now step H).
  unfold bind, set_status, send_json. cbn [res resHeaders]. now rewrite Hres.
Qed.

(** ** The header table *)

Lemma same_header_refl name : same_header name name = true.
Proof. apply String.eqb_refl. Qed.

Lemma lookup_with_header table name content :
  lookup_header (with_header table name content) name = Some content.
Proof.
  unfold lookup_header, with_header.
  induction table as [ | h rest IH]; simpl.
  - now rewrite same_header_refl.
  - destruct (same_header (fst h) name) eqn:Hsame; simpl.
    + exact IH.
    + now rewrite Hsame.
Qed.

Lemma lookup_with_other_header table name content other :
  same_header name other = false ->
  lookup_header (with_header table name content) other
  = lookup_header table other.
Proof.
  intros Hother. unfold lookup_header, with_header.
  induction table as [ | h rest IH]; simpl.
  - now rewrite Hother.
  - destruct (same_header (fst h) name) eqn:Hname; simpl.
    + destruct (same_header (fst h) other) eqn:Hh; [ | exact IH].
      unfold same_header in *.
      apply String.eqb_eq in Hname, Hh. apply String.eqb_neq in Hother.
      congruence.
    + destruct (same_header (fst h) other); [reflexivity | exact IH].
Qed.

Lemma recently_played_requests w access_token s :
  requests (snd (recently_played w access_token s))
  = (requests s ++ [recently_played_request access_token])%list.
Proof.
  unfold recently_played, bind, fetch.
  fold (recently_played_request access_token).
  destruct (upstream w (recently_played_request access_token)) as [why | r];
    [reflexivity | ].
  destruct (ok r); [ | reflexivity]. simpl.
  unfold json. destruct (payload r) as [why | recentData]; [reflexivity | ].
  unfold ret, sync. simpl.
  destruct (last_track recentData) as [lastTrack | e]; [ | reflexivity].
  now destruct (truthy lastTrack).
Qed.

(** ** The earlier revision when the history fails *)

(** With a token granted and a currently-playing status other than 200,
    the earlier revision throws on an unsuccessful answer of its history
    endpoint, where the current one returns the offline result
    ([recently_played_not_ok]). *)
Lemma earlier_history_failure_throws w s access_token r_now r_recent :
  grants w access_token ->
  upstream w (now_playing_request access_token) = Responds r_now ->
  status r_now <> 200 ->
  upstream w (bearer_request (Earlier.RECENTLY_PLAYED_ENDPOINT ++ "?limit=1")
                             access_token) = Responds r_recent ->
  ok r_recent = false ->
  Earlier.getNowPlaying w s
  = (Throw (Error ("Spotify recent-played API returned "
                   ++ show_Z (status r_recent))),
     with_requests s
       [token_request w; now_playing_request access_token;
        bearer_request (Earlier.RECENTLY_PLAYED_ENDPOINT ++ "?limit=1")
                       access_token]).
Proof.
  intros Hgrant Hnow Hstatus Hrecent Hok.
  destruct (getAccessToken_granted w access_token s Hgrant) as (data & Hrun & Hget).
  assert (Htruthy : truthy access_token = true)
    by (destruct Hgrant as (? & ? & ? & ? & ? & ? & ?); assumption).
  unfold Earlier.getNowPlaying.
  change (Earlier.getAccessToken w) with (getAccessToken w).
  step Hrun. unfold sync at 1. unfold bind at 1. rewrite Hget, Htruthy. simpl.
  step (fetch_responds _ _ _ (with_requests s [token_request w]) Hnow).
  rewrite with_requests_app. simpl.
  apply Z.eqb_neq in Hstatus. rewrite Hstatus.
  unfold Earlier.recently_played.
  step (fetch_responds _ _ _
          (with_requests s [token_request w; now_playing_request access_token])
          Hrecent).
  rewrite Hok, with_requests_app. reflexivity.
Qed.

(** ** Properties of the handler *)

(** C1, amended.  When a token has been granted and the currently-playing request
    answers 200 with a JSON body whose [is_playing] is [true] and whose
    item is a track object of type ["track"], [getNowPlaying] returns the
    result with status ["playing"], [isPlaying] [true], the name of the
    track, the names of its artists joined by a comma and a space, the URL
    of the first image of the album, the external URL, and the progress and
    the duration as the upstream reports them; only the token request and
    the currently-playing request have gone out.  For any other answer
    (a status other than 200, or a 200 whose body has a false [is_playing]
    or no item of type ["track"]) nothing is thrown before the
    recently-played query: the function goes on with its second step, whose
    request is the third and last one. *)
Theorem playing_track_or_recently_played_query :
  forall w s access_token r,
    grants w access_token ->
    upstream w (now_playing_request access_token) = Responds r ->
    (forall song item,
        status r = 200 ->
        payload r = JSON song ->
        prop song "is_playing" = VBool true ->
        prop song "item" = item ->
        prop item "type" = VStr "track" ->
        track_object item = true ->
        getNowPlaying w s
        = (Return (VObj [("status", VStr "playing");
                         ("isPlaying", VBool true);
                         ("trackName", prop item "name");
                         ("artistName", VStr (artist_names item));
                         ("albumArtUrl", album_art item);
                         ("songUrl", prop (prop item "external_urls") "spotify");
                         ("progressMs", prop song "progress_ms");
                         ("durationMs", prop item "duration_ms")]),
           with_requests s [token_request w; now_playing_request access_token]))
    /\
    ((status r <> 200 \/
      exists song, payload r = JSON song /\ no_track_playing song) ->
     getNowPlaying w s
     = recently_played w access_token
         (with_requests s [token_request w; now_playing_request access_token])
     /\
     requests (snd (getNowPlaying w s))
     = (requests s ++ [token_request w; now_playing_request access_token;
                       recently_played_request access_token])%list).
Proof.
  intros w s access_token r Hgrant Hup. split.
  - intros song item Hstatus Hpay Hplaying Hitem Htype Htrack.
    rewrite (returns_playing_result w access_token s r song Hgrant Hup Hstatus Hpay).
    + rewrite (playing_result_track song item); try assumption.
      * now rewrite Hplaying.
      * destruct song; unfold prop in Hplaying; simpl in *; congruence.
    + now rewrite Hplaying.
    + rewrite Hitem, Htype. reflexivity.
  - intros Hother.
    assert (Hnone : nothing_playing w access_token) by (now exists r).
    rewrite (reaches_recently_played w access_token s Hgrant Hnone).
    split; [reflexivity | ].
    rewrite recently_played_requests. simpl. now rewrite <- app_assoc.
Qed.

(** C2, amended.  When the recently-played request is made (a token was granted
    and no track is playing) and succeeds with a JSON body: if the most
    recent item of [items] carries a track object, [getNowPlaying] returns
    the result with status ["last_played"], [isPlaying] [false],
    [progressMs] 0 and the other fields taken from that track; if [items]
    is empty, it returns the offline result. *)
Theorem recently_played_success :
  forall w s access_token r recentData,
    grants w access_token ->
    nothing_playing w access_token ->
    upstream w (recently_played_request access_token) = Responds r ->
    ok r = true ->
    payload r = JSON recentData ->
    (forall item others lastTrack,
        prop recentData "items" = VArr (item :: others) ->
        prop item "track" = lastTrack ->
        track_object lastTrack = true ->
        getNowPlaying w s
        = (Return (VObj [("status", VStr "last_played");
                         ("isPlaying", VBool false);
                         ("trackName", prop lastTrack "name");
                         ("artistName", VStr (artist_names lastTrack));
                         ("albumArtUrl", album_art lastTrack);
                         ("songUrl", prop (prop lastTrack "external_urls") "spotify");
                         ("progressMs", VNum 0);
                         ("durationMs", prop lastTrack "duration_ms")]),
           with_requests s [token_request w; now_playing_request access_token;
                            recently_played_request access_token]))
    /\
    (prop recentData "items" = VArr [] ->
     getNowPlaying w s
     = (Return (VObj [("status", VStr "offline"); ("isPlaying", VBool false)]),
        with_requests s [token_request w; now_playing_request access_token;
                         recently_played_request access_token])).
Proof.
  intros w s access_token r recentData Hgrant Hnone Hup Hok Hpay.
  rewrite (reaches_recently_played w access_token s Hgrant Hnone).
  rewrite (recently_played_ok w access_token _ r recentData Hup Hok Hpay).
  rewrite with_requests_app. simpl.
  assert (Hdata : forall items, prop recentData "items" = VArr items ->
                                nullish recentData = false).
  { intros items H. destruct recentData; unfold prop in H; simpl in *; congruence. }
  split.
  - intros item others lastTrack Hitems Hfirst Htrack.
    destruct (track_object_fields lastTrack Htrack) as (Hlast & _).
    assert (Hitem : nullish item = false).
    { destruct item; unfold prop in Hfirst; simpl in *; subst; try discriminate;
        reflexivity. }
    unfold sync at 1. unfold bind at 1. unfold last_track.
    rewrite (get_present _ (Hdata _ Hitems)), Hitems. unfold first. simpl.
    unfold get_optional. rewrite Hitem, Hfirst.
    assert (Htruthy : truthy lastTrack = true).
    { destruct lastTrack; unfold track_object, prop in Htrack; simpl in *;
        try discriminate; reflexivity. }
    rewrite Htruthy. unfold sync.
    now rewrite (last_played_result_track lastTrack Htrack).
  - intros Hitems.
    unfold sync at 1. unfold bind at 1. unfold last_track.
    rewrite (get_present _ (Hdata _ Hitems)), Hitems. reflexivity.
Qed.

(** C3.  When the recently-played request is made and its answer is not
    a success, [getNowPlaying] returns the offline result and throws
    nothing, so that the handler answers with status 200 and that result. *)
Theorem recently_played_failure_is_offline :
  forall w s access_token r,
    grants w access_token ->
    nothing_playing w access_token ->
    upstream w (recently_played_request access_token) = Responds r ->
    ok r = false ->
    getNowPlaying w s
    = (Return (VObj [("status", VStr "offline"); ("isPlaying", VBool false)]),
       with_requests s [token_request w; now_playing_request access_token;
                        recently_played_request access_token])
    /\ fst (handler w s) = Return tt
    /\ statusCode (res (snd (handler w s))) = 200
    /\ sent (res (snd (handler w s)))
       = Some (VObj [("status", VStr "offline"); ("isPlaying", VBool false)]).
Proof.
  intros w s access_token r Hgrant Hnone Hup Hok.
  assert (Hrun : getNowPlaying w s
                 = (Return offline,
                    with_requests s [token_request w; now_playing_request access_token;
                                     recently_played_request access_token])).
  { rewrite (reaches_recently_played w access_token s Hgrant Hnone).
    rewrite (recently_played_not_ok w access_token _ r Hup Hok).
    now rewrite with_requests_app. }
  split; [exact Hrun | ].
  rewrite (handler_success w s _ _ Hrun). simpl. repeat split; reflexivity.
Qed.

(** C4, amended.  When the token endpoint answers with a status outside
    200..299, [getAccessToken] throws, the token request is the only
    request of the invocation (nothing is tried again), and the handler
    answers with status 500 and the body
    [{status: 'error', isPlaying: false, error: message}].  When the body
    of the answer is JSON, what is thrown is the [Error] whose message
    includes the status code and the body as [JSON.stringify] writes it,
    and that message is not empty. *)
Theorem token_refusal_is_fatal :
  forall w s r,
    upstream w (token_request w) = Responds r ->
    ok r = false ->
    exists e,
      getAccessToken w s = (Throw e, with_requests s [token_request w])
      /\ getNowPlaying w s = (Throw e, with_requests s [token_request w])
      /\ handler w s
         = (Return tt,
            {| requests := requests s ++ [token_request w];
               res := {| statusCode := 500;
                         resHeaders := resHeaders (res s);
                         sent := Some (VObj [("status", VStr "error");
                                             ("isPlaying", VBool false);
                                             ("error", VStr (message e))]) |} |})
      /\ (forall data,
             payload r = JSON data ->
             e = Error ("Spotify token API returned " ++ show_Z (status r)
                        ++ ": " ++ JSON_stringify data)
             /\ includes (message e) (show_Z (status r)) = true
             /\ includes (message e) (JSON_stringify data) = true
             /\ message e <> "").
Proof.
  intros w s r Hup Hok.
  assert (Htoken : exists e,
             getAccessToken w s = (Throw e, with_requests s [token_request w])
             /\ instanceof_Error e = true
             /\ (forall data,
                    payload r = JSON data ->
                    e = Error ("Spotify token API returned " ++ show_Z (status r)
                               ++ ": " ++ JSON_stringify data))).
  { unfold getAccessToken.
    destruct (payload r) as [why | data] eqn:Hpay.
    - exists (SyntaxError why). split; [ | split].
      + step (fetch_responds _ _ _ s Hup).
        unfold bind, json. now rewrite Hpay.
      + reflexivity.
      + discriminate.
    - eexists. split; [ | split].
      + step (fetch_responds _ _ _ s Hup).
        step (json_parsed _ _ (with_requests s [token_request w]) Hpay).
        rewrite Hok. reflexivity.
      + reflexivity.
      + intros data' Hdata. now inversion Hdata. }
  destruct Htoken as (e & Htoken & Hclass & Hmsg).
  assert (Hrun : getNowPlaying w s = (Throw e, with_requests s [token_request w])).
  { unfold getNowPlaying. now step Htoken. }
  exists e. split; [assumption | ]. split; [assumption | ].
  split; [rewrite (handler_failure w s _ _ Hrun); now rewrite Hclass | ].
  intros data Hpay. rewrite (Hmsg data Hpay). cbn [message].
  split; [reflexivity | ].
  split; [apply includes_append | ].
  split; [ | discriminate].
  replace ("Spotify token API returned " ++ show_Z (status r) ++ ": "
           ++ JSON_stringify data)
    with (("Spotify token API returned " ++ show_Z (status r) ++ ": ")
          ++ JSON_stringify data).
  - apply includes_end.
  - now rewrite !append_assoc.
Qed.

(** C5, amended.  Whatever the three services answer, the handler
    completes and the body it sends has a [status] among ["playing"],
    ["last_played"], ["offline"] and ["error"].  Its [isPlaying] is the
    boolean [false] for every status other than ["playing"]; for
    ["playing"] it is the [is_playing] the upstream sent, which is truthy.
    So [isPlaying] is truthy exactly when the status is ["playing"], and
    whenever it is a boolean it is [true] exactly when the status is
    ["playing"]. *)
Theorem handler_status_and_isPlaying :
  forall w s,
  exists data,
    fst (handler w s) = Return tt /\
    sent (res (snd (handler w s))) = Some data /\
    (prop data "status" = VStr "playing" \/
     prop data "status" = VStr "last_played" \/
     prop data "status" = VStr "offline" \/
     prop data "status" = VStr "error") /\
    (prop data "status" <> VStr "playing" -> prop data "isPlaying" = VBool false) /\
    (prop data "status" = VStr "playing" -> forwards_is_playing w data) /\
    (truthy (prop data "isPlaying") = true <-> prop data "status" = VStr "playing") /\
    (forall b, prop data "isPlaying" = VBool b ->
               (b = true <-> prop data "status" = VStr "playing")).
Proof.
  intros w s.
  assert (Hcases : exists data,
             fst (handler w s) = Return tt /\
             sent (res (snd (handler w s))) = Some data /\
             (result_shape w data \/
              (prop data "status" = VStr "error" /\
               prop data "isPlaying" = VBool false))).
  { destruct (getNowPlaying w s) as [[v | e] s'] eqn:Hrun.
    - exists v. rewrite (handler_success w s v s' Hrun). simpl.
      repeat split. left. exact (getNowPlaying_shape w s v s' Hrun).
    - eexists. rewrite (handler_failure w s e s' Hrun). simpl.
      repeat split. right. split; reflexivity. }
  destruct Hcases as (data & Hdone & Hsent & Hshape).
  exists data. split; [assumption | ]. split; [assumption | ].
  assert (Hkinds :
            (prop data "status" = VStr "playing" /\
             truthy (prop data "isPlaying") = true /\
             forwards_is_playing w data) \/
            (prop data "status" <> VStr "playing" /\
             prop data "isPlaying" = VBool false /\
             (prop data "status" = VStr "last_played" \/
              prop data "status" = VStr "offline" \/
              prop data "status" = VStr "error"))).
  { destruct Hshape as [[Hplaying | [[Hstatus His] | Hoffline]] | [Hstatus His]].
    - left. exact Hplaying.
    - right. rewrite Hstatus. repeat split; try assumption; auto; discriminate.
    - right. subst data. repeat split; auto; discriminate.
    - right. rewrite Hstatus. repeat split; try assumption; auto; discriminate. }
  destruct Hkinds as [(Hstatus & His & Hforward) | (Hstatus & His & Hwhich)].
  - split; [now left | ].
    split; [intros Hnot; contradiction | ].
    split; [intros _; exact Hforward | ].
    split; [tauto | ].
    intros b Hb. rewrite Hb in His. simpl in His. tauto.
  - split; [tauto | ].
    split; [intros _; exact His | ].
    split; [intros Hyes; contradiction | ].
    split; [rewrite His; simpl; split; [discriminate | contradiction] | ].
    intros b Hb. rewrite His in Hb. inversion Hb.
    split; [discriminate | contradiction].
Qed.

(** C6.  Whenever [getNowPlaying] returns, the handler answers with
    status 200, the header [Content-Type: application/json], the header
    [cache-control: public, s-maxage=N, stale-while-revalidate=M] (with
    N = 10 and M = 5) and the data [getNowPlaying] returned. *)
Theorem success_response_headers :
  forall w s data s',
    getNowPlaying w s = (Return data, s') ->
    fst (handler w s) = Return tt /\
    statusCode (res (snd (handler w s))) = 200 /\
    getHeader (res (snd (handler w s))) "Content-Type" = Some "application/json" /\
    (exists N M,
        getHeader (res (snd (handler w s))) "cache-control"
        = Some ("public, s-maxage=" ++ show_Z N
                ++ ", stale-while-revalidate=" ++ show_Z M)
        /\ N = 10 /\ M = 5) /\
    sent (res (snd (handler w s))) = Some data.
Proof.
  intros w s data s' Hrun.
  rewrite (handler_success w s data s' Hrun). simpl. unfold getHeader. simpl.
  repeat split.
  - rewrite lookup_with_other_header by reflexivity.
    apply lookup_with_header.
  - exists 10, 5. split; [ | split; reflexivity].
    rewrite lookup_with_header. reflexivity.
Qed.

(** C7, amended.  For an upstream track that is a track object (a list
    of artists none of which is [null], an album with its images, and the
    [external_urls]) and whose album has an empty list of images, both
    object literals are built without a throw: [albumArtUrl] is
    [undefined] (the optional chaining on the missing first image) and
    every other field has the value the track gives. *)
Theorem empty_images_give_no_album_art :
  forall t,
    track_object t = true ->
    prop (prop t "album") "images" = VArr [] ->
    last_played_result t
    = Return (VObj [("status", VStr "last_played");
                    ("isPlaying", VBool false);
                    ("trackName", prop t "name");
                    ("artistName", VStr (artist_names t));
                    ("albumArtUrl", VUndefined);
                    ("songUrl", prop (prop t "external_urls") "spotify");
                    ("progressMs", VNum 0);
                    ("durationMs", prop t "duration_ms")])
    /\
    (forall song,
        nullish song = false ->
        prop song "item" = t ->
        playing_result song
        = Return (VObj [("status", VStr "playing");
                        ("isPlaying", prop song "is_playing");
                        ("trackName", prop t "name");
                        ("artistName", VStr (artist_names t));
                        ("albumArtUrl", VUndefined);
                        ("songUrl", prop (prop t "external_urls") "spotify");
                        ("progressMs", prop song "progress_ms");
                        ("durationMs", prop t "duration_ms")])).
Proof.
  intros t Htrack Himages.
  assert (Hart : album_art t = VUndefined)
    by (unfold album_art; rewrite Himages; reflexivity).
  split.
  - rewrite (last_played_result_track t Htrack). now rewrite Hart.
  - intros song Hsong Hitem.
    rewrite (playing_result_track song t Hsong Hitem Htrack). now rewrite Hart.
Qed.


(** C9, amended.  When the token endpoint answers with a success status
    and a JSON body that has no [access_token], [getNowPlaying] throws
    with the token request as the only request made (no playback query),
    and the handler answers with status 500 and a body of status
    ["error"] that carries the message of what was thrown.  Unless the
    body is [null], what is thrown is ['Could not get access token']; for
    the body [null] it is the TypeError of the destructuring. *)
Theorem missing_access_token_is_fatal :
  forall w s r data,
    upstream w (token_request w) = Responds r ->
    ok r = true ->
    payload r = JSON data ->
    prop data "access_token" = VUndefined ->
    exists e,
      getNowPlaying w s = (Throw e, with_requests s [token_request w])
      /\ handler w s
         = (Return tt,
            {| requests := requests s ++ [token_request w];
               res := {| statusCode := 500;
                         resHeaders := resHeaders (res s);
                         sent := Some (VObj [("status", VStr "error");
                                             ("isPlaying", VBool false);
                                             ("error", VStr (message e))]) |} |})
      /\ (nullish data = false -> e = Error "Could not get access token")
      /\ (data = VNull ->
          e = TypeError "Cannot destructure property 'access_token' of '(intermediate value)' as it is null.").
Proof.
  intros w s r data Hup Hok Hpay Hnone.
  assert (Hrun : exists e,
             getNowPlaying w s = (Throw e, with_requests s [token_request w])
             /\ instanceof_Error e = true
             /\ (nullish data = false -> e = Error "Could not get access token")
             /\ (data = VNull ->
                 e = TypeError "Cannot destructure property 'access_token' of '(intermediate value)' as it is null.")).
  { destruct (nullish data) eqn:Hnull.
    - eexists. split; [ | split; [ | split]].
      + unfold getNowPlaying.
        step (getAccessToken_ok w s r data Hup Hok Hpay).
        unfold sync, bind, destructure. rewrite Hnull. reflexivity.
      + reflexivity.
      + discriminate.
      + intros Hdata. subst data. reflexivity.
    - exists (Error "Could not get access token").
      split; [ | split; [reflexivity | split; [reflexivity | ]]].
      + unfold getNowPlaying.
        step (getAccessToken_ok w s r data Hup Hok Hpay).
        unfold sync, bind, destructure. rewrite Hnull, Hnone. reflexivity.
      + intros Hdata. subst data. discriminate. }
  destruct Hrun as (e & Hrun & Hclass & Hobject & Hnull).
  exists e. split; [exact Hrun | ].
  split; [ | split; assumption].
  rewrite (handler_failure w s e _ Hrun). now rewrite Hclass.
Qed.


(** ** The properties at the sample upstream states *)

(** Shows that a sample world grants the sample token. *)
Ltac sample_token_granted :=
  exists {| status := 200; payload := JSON sample_token |}, sample_token;
  repeat split; reflexivity.

(** Shows that the currently-playing service of a sample world answers 204. *)
Ltac sample_nothing_playing :=
  exists {| status := 204; payload := NotJSON "Unexpected end of JSON input" |};
  split; [reflexivity | left; discriminate].

Lemma playing_track_or_recently_played_query_witness :
  getNowPlaying world_playing fresh
  = (Return (VObj [("status", VStr "playing");
                   ("isPlaying", VBool true);
                   ("trackName", VStr "Blue in Green");
                   ("artistName", VStr "Miles Davis, Bill Evans");
                   ("albumArtUrl", VStr "https://i.scdn.co/image/ab67");
                   ("songUrl", VStr "https://open.spotify.com/track/0aWMVrwx");
                   ("progressMs", VNum 41000);
                   ("durationMs", VNum 337000)]),
     with_requests fresh [token_request world_playing;
                          now_playing_request (VStr "BQDx")])
  /\ requests (snd (getNowPlaying world_paused fresh))
     = [token_request world_paused;
        now_playing_request (VStr "BQDx");
        recently_played_request (VStr "BQDx")].
Proof.
  split.
  - assert (Hgrant : grants world_playing (VStr "BQDx")) by sample_token_granted.
    exact (proj1 (playing_track_or_recently_played_query
                    world_playing fresh (VStr "BQDx")
                    {| status := 200; payload := JSON sample_song |}
                    Hgrant eq_refl)
                 sample_song sample_track
                 eq_refl eq_refl eq_refl eq_refl eq_refl eq_refl).
  - assert (Hgrant : grants world_paused (VStr "BQDx")) by sample_token_granted.
    apply (proj2 (playing_track_or_recently_played_query
                    world_paused fresh (VStr "BQDx")
                    {| status := 200; payload := JSON sample_paused |}
                    Hgrant eq_refl)).
    right. exists sample_paused. split; [reflexivity | left; reflexivity].
Defined.

Lemma recently_played_success_witness :
  getNowPlaying world_idle fresh
  = (Return (VObj [("status", VStr "last_played");
                   ("isPlaying", VBool false);
                   ("trackName", VStr "Blue in Green");
                   ("artistName", VStr "Miles Davis, Bill Evans");
                   ("albumArtUrl", VStr "https://i.scdn.co/image/ab67");
                   ("songUrl", VStr "https://open.spotify.com/track/0aWMVrwx");
                   ("progressMs", VNum 0);
                   ("durationMs", VNum 337000)]),
     with_requests fresh [token_request world_idle;
                          now_playing_request (VStr "BQDx");
                          recently_played_request (VStr "BQDx")])
  /\ fst (getNowPlaying world_no_history fresh)
     = Return (VObj [("status", VStr "offline"); ("isPlaying", VBool false)]).
Proof.
  split.
  - assert (Hgrant : grants world_idle (VStr "BQDx")) by sample_token_granted.
    assert (Hnone : nothing_playing world_idle (VStr "BQDx"))
      by sample_nothing_playing.
    exact (proj1 (recently_played_success
                    world_idle fresh (VStr "BQDx")
                    {| status := 200; payload := JSON sample_history |}
                    sample_history Hgrant Hnone eq_refl eq_refl eq_refl)
                 (VObj [("track", sample_track)]) [] sample_track
                 eq_refl eq_refl eq_refl).
  - assert (Hgrant : grants world_no_history (VStr "BQDx")) by sample_token_granted.
    assert (Hnone : nothing_playing world_no_history (VStr "BQDx"))
      by sample_nothing_playing.
    rewrite (proj2 (recently_played_success
                      world_no_history fresh (VStr "BQDx")
                      {| status := 200; payload := JSON (VObj [("items", VArr [])]) |}
                      (VObj [("items", VArr [])])
                      Hgrant Hnone eq_refl eq_refl eq_refl) eq_refl).
    reflexivity.
Defined.

Lemma recently_played_failure_is_offline_witness :
  fst (getNowPlaying world_history_down fresh) = Return offline
  /\ statusCode (res (snd (handler world_history_down fresh))) = 200.
Proof.
  assert (Hgrant : grants world_history_down (VStr "BQDx")) by sample_token_granted.
  assert (Hnone : nothing_playing world_history_down (VStr "BQDx"))
    by sample_nothing_playing.
  destruct (recently_played_failure_is_offline
              world_history_down fresh (VStr "BQDx")
              {| status := 500;
                 payload := JSON (VObj [("error", VStr "server error")]) |}
              Hgrant Hnone eq_refl eq_refl)
    as (Hrun & _ & Hstatus & _).
  split; [now rewrite Hrun | exact Hstatus].
Defined.

Lemma token_refusal_is_fatal_witness :
  getAccessToken world_bad_refresh_token fresh
  = (Throw (Error ("Spotify token API returned 401: "
                   ++ JSON_stringify (VObj [("error", VStr "invalid_grant")]))),
     with_requests fresh [token_request world_bad_refresh_token])
  /\ statusCode (res (snd (handler world_bad_refresh_token fresh))) = 500.
Proof.
  destruct (token_refusal_is_fatal
              world_bad_refresh_token fresh
              {| status := 401;
                 payload := JSON (VObj [("error", VStr "invalid_grant")]) |}
              eq_refl eq_refl)
    as (e & Htoken & _ & Hhandler & Hmsg).
  destruct (Hmsg (VObj [("error", VStr "invalid_grant")]) eq_refl) as [He _].
  split.
  - rewrite Htoken, He. reflexivity.
  - rewrite Hhandler. reflexivity.
Defined.

Lemma success_response_headers_witness :
  statusCode (res (snd (handler world_playing fresh))) = 200
  /\ getHeader (res (snd (handler world_playing fresh))) "Content-Type"
     = Some "application/json"
  /\ sent (res (snd (handler world_playing fresh)))
     = Some (VObj [("status", VStr "playing");
                   ("isPlaying", VBool true);
                   ("trackName", VStr "Blue in Green");
                   ("artistName", VStr "Miles Davis, Bill Evans");
                   ("albumArtUrl", VStr "https://i.scdn.co/image/ab67");
                   ("songUrl", VStr "https://open.spotify.com/track/0aWMVrwx");
                   ("progressMs", VNum 41000);
                   ("durationMs", VNum 337000)]).
Proof.
  destruct (success_response_headers
              world_playing fresh
              (VObj [("status", VStr "playing");
                     ("isPlaying", VBool true);
                     ("trackName", VStr "Blue in Green");
                     ("artistName", VStr "Miles Davis, Bill Evans");
                     ("albumArtUrl", VStr "https://i.scdn.co/image/ab67");
                     ("songUrl", VStr "https://open.spotify.com/track/0aWMVrwx");
                     ("progressMs", VNum 41000);
                     ("durationMs", VNum 337000)])
              (with_requests fresh [token_request world_playing;
                                    now_playing_request (VStr "BQDx")])
              eq_refl)
    as (_ & Hstatus & Htype & _ & Hsent).
  split; [exact Hstatus | ]. split; [exact Htype | exact Hsent].
Defined.

Lemma empty_images_give_no_album_art_witness :
  last_played_result sample_track_no_art
  = Return (VObj [("status", VStr "last_played");
                  ("isPlaying", VBool false);
                  ("trackName", VStr "Blue in Green");
                  ("artistName", VStr "Miles Davis, Bill Evans");
                  ("albumArtUrl", VUndefined);
                  ("songUrl", VStr "https://open.spotify.com/track/0aWMVrwx");
                  ("progressMs", VNum 0);
                  ("durationMs", VNum 337000)]).
Proof.
  exact (proj1 (empty_images_give_no_album_art sample_track_no_art
                  eq_refl eq_refl)).
Defined.

Lemma missing_access_token_is_fatal_witness :
  getNowPlaying world_no_access_token fresh
  = (Throw (Error "Could not get access token"),
     with_requests fresh [token_request world_no_access_token]).
Proof.
  destruct (missing_access_token_is_fatal
              world_no_access_token fresh
              {| status := 200;
                 payload := JSON (VObj [("token_type", VStr "Bearer")]) |}
              (VObj [("token_type", VStr "Bearer")])
              eq_refl eq_refl eq_refl eq_refl)
    as (e & Hrun & _ & Hobject & _).
  rewrite Hrun, (Hobject eq_refl). reflexivity.
Defined.


(** ** Upstream states that refute the first wording of a property *)

(** C1 as first stated fails here: the currently-playing request answers
    200 with a JSON body whose [is_playing] is [true] and whose item has
    the type ["track"], yet [getNowPlaying] returns no result: reading the
    artists of an item that has none throws, and the handler answers
    500. *)
Lemma bare_track_item_throws :
  grants world_bare_item (VStr "BQDx")
  /\ upstream world_bare_item (now_playing_request (VStr "BQDx"))
     = Responds {| status := 200; payload := JSON bare_song |}
  /\ prop bare_song "is_playing" = VBool true
  /\ prop (prop bare_song "item") "type" = VStr "track"
  /\ getNowPlaying world_bare_item fresh
     = (Throw (TypeError "Cannot read properties of undefined (reading 'map')"),
        with_requests fresh [token_request world_bare_item;
                             now_playing_request (VStr "BQDx")])
  /\ statusCode (res (snd (handler world_bare_item fresh))) = 500
  /\ ~ (exists data s', getNowPlaying world_bare_item fresh = (Return data, s')).
Proof.
  split; [sample_token_granted | ].
  repeat split; try reflexivity.
  intros (data & s' & H). vm_compute in H. discriminate.
Qed.

(** C2 as first stated fails here: the recently-played request succeeds
    and its one item has a track, yet [getNowPlaying] returns no result,
    because that track has no list of artists. *)
Lemma bare_history_track_throws :
  grants world_bare_history (VStr "BQDx")
  /\ nothing_playing world_bare_history (VStr "BQDx")
  /\ upstream world_bare_history (recently_played_request (VStr "BQDx"))
     = Responds {| status := 200; payload := JSON bare_history |}
  /\ ok {| status := 200; payload := JSON bare_history |} = true
  /\ truthy (prop (first_of (prop bare_history "items")) "track") = true
  /\ getNowPlaying world_bare_history fresh
     = (Throw (TypeError "Cannot read properties of undefined (reading 'map')"),
        with_requests fresh [token_request world_bare_history;
                             now_playing_request (VStr "BQDx");
                             recently_played_request (VStr "BQDx")])
  /\ ~ (exists data s', getNowPlaying world_bare_history fresh = (Return data, s')).
Proof.
  split; [sample_token_granted | ].
  split; [sample_nothing_playing | ].
  repeat split; try reflexivity.
  intros (data & s' & H). vm_compute in H. discriminate.
Qed.

(** C4 as first stated fails here: the token endpoint answers 503, not a
    success, with a body that is not JSON.  What [getAccessToken] throws is
    the parse failure of [response.json()], whose message holds neither the
    status code nor the body; the handler still answers 500 with a body of
    status ["error"]. *)
Lemma token_error_page_hides_status :
  upstream world_gateway_error (token_request world_gateway_error)
  = Responds gateway_error
  /\ ok gateway_error = false
  /\ getAccessToken world_gateway_error fresh
     = (Throw (SyntaxError "Unexpected token < in JSON at position 0"),
        with_requests fresh [token_request world_gateway_error])
  /\ includes "Unexpected token < in JSON at position 0"
              (show_Z (status gateway_error)) = false
  /\ statusCode (res (snd (handler world_gateway_error fresh))) = 500
  /\ sent (res (snd (handler world_gateway_error fresh)))
     = Some (VObj [("status", VStr "error");
                   ("isPlaying", VBool false);
                   ("error", VStr "Unexpected token < in JSON at position 0")]).
Proof. repeat split; reflexivity. Qed.

(** C5 as first stated fails here: the upstream reports [is_playing] as
    the number 1, the handler answers with the status ["playing"], and the
    [isPlaying] of the body is that number, not [true]. *)
Lemma numeric_is_playing_is_passed_on :
  sent (res (snd (handler world_numeric_flag fresh)))
  = Some (VObj [("status", VStr "playing");
                ("isPlaying", VNum 1);
                ("trackName", VStr "Blue in Green");
                ("artistName", VStr "Miles Davis, Bill Evans");
                ("albumArtUrl", VStr "https://i.scdn.co/image/ab67");
                ("songUrl", VStr "https://open.spotify.com/track/0aWMVrwx");
                ("progressMs", VNum 41000);
                ("durationMs", VNum 337000)])
  /\ ~ (forall data,
          sent (res (snd (handler world_numeric_flag fresh))) = Some data ->
          (prop data "isPlaying" = VBool true
           <-> prop data "status" = VStr "playing")).
Proof.
  split; [reflexivity | ].
  intros H. specialize (H _ eq_refl).
  destruct H as [_ H]. specialize (H eq_refl). discriminate.
Qed.


(** C7 as first stated fails here: the track has an album whose list of
    images is empty, and building either object literal throws, because
    the track has no list of artists. *)
Lemma track_without_artists_throws :
  prop (prop track_without_artists "album") "images" = VArr []
  /\ last_played_result track_without_artists
     = Throw (TypeError "Cannot read properties of undefined (reading 'map')")
  /\ playing_result (VObj [("is_playing", VBool true);
                           ("progress_ms", VNum 41000);
                           ("item", track_without_artists)])
     = Throw (TypeError "Cannot read properties of undefined (reading 'map')").
Proof. repeat split; reflexivity. Qed.

(** C9 as first stated fails here: the token endpoint answers 200 with
    the JSON body [null], which has no [access_token]; what
    [getNowPlaying] throws is the TypeError of the destructuring, not
    ['Could not get access token'].  The handler still answers 500. *)
Lemma null_token_body_throws_type_error :
  upstream world_null_token (token_request world_null_token)
  = Responds {| status := 200; payload := JSON VNull |}
  /\ ok {| status := 200; payload := JSON VNull |} = true
  /\ prop VNull "access_token" = VUndefined
  /\ getNowPlaying world_null_token fresh
     = (Throw (TypeError "Cannot destructure property 'access_token' of '(intermediate value)' as it is null."),
        with_requests fresh [token_request world_null_token])
  /\ fst (getNowPlaying world_null_token fresh)
     <> Throw (Error "Could not get access token")
  /\ statusCode (res (snd (handler world_null_token fresh))) = 500.
Proof. repeat split; try reflexivity. vm_compute. discriminate. Qed.


(** ** Further lemmas on running code *)

Lemma with_requests_nil s : with_requests s [] = s.
Proof. destruct s as [reqs r]. unfold with_requests. simpl. now rewrite app_nil_r. Qed.

Lemma sync_run {A} (c : completion A) s : sync c s = (c, s).
Proof. reflexivity. Qed.

Lemma json_not_parsed r why s :
  payload r = NotJSON why -> json r s = (Throw (SyntaxError why), s).
Proof. intros H. unfold json. now rewrite H. Qed.

(** [getAccessToken] makes one request and returns the body of a success
    answer; anything else is thrown. *)
Lemma getAccessToken_cases w :
  exists c,
    (forall s, getAccessToken w s = (c, with_requests s [token_request w])) /\
    match c with
    | Return data =>
        exists r, upstream w (token_request w) = Responds r /\
                  ok r = true /\ payload r = JSON data
    | Throw e =>
        instanceof_Error e = true /\
        (upstream w (token_request w) = Fails (message e) \/
         exists r, upstream w (token_request w) = Responds r /\
                   (payload r = NotJSON (message e) \/
                    exists data, payload r = JSON data /\ ok r = false))
    end.
Proof.
  destruct (upstream w (token_request w)) as [why | r] eqn:Hup.
  - exists (Throw (TypeError why)). split.
    + intros s. unfold getAccessToken. now step (fetch_fails _ _ _ s Hup).
    + split; [reflexivity | now left].
  - destruct (payload r) as [why | data] eqn:Hpay.
    + exists (Throw (SyntaxError why)). split.
      * intros s. unfold getAccessToken.
        step (fetch_responds _ _ _ s Hup).
        now step (json_not_parsed _ _ (with_requests s [token_request w]) Hpay).
      * split; [reflexivity | right; exists r; split; [reflexivity | now left]].
    + destruct (ok r) eqn:Hok.
      * exists (Return data). split.
        -- intros s. exact (getAccessToken_ok w s r data Hup Hok Hpay).
        -- now exists r.
      * eexists (Throw (Error _)). split.
        -- intros s. unfold getAccessToken.
           step (fetch_responds _ _ _ s Hup).
           step (json_parsed _ _ (with_requests s [token_request w]) Hpay).
           rewrite Hok. reflexivity.
        -- split; [reflexivity | ].
           right. exists r. split; [reflexivity | ]. right. now exists data.
Qed.

(** Either a usable token is granted, or [getNowPlaying] throws after the
    token request. *)
Lemma token_stage w :
  (exists access_token, grants w access_token) \/
  (exists e, forall s,
        getNowPlaying w s = (Throw e, with_requests s [token_request w])).
Proof.
  destruct (getAccessToken_cases w) as ([data | e] & Hrun & Hc).
  - destruct Hc as (r & Hup & Hok & Hpay).
    destruct (nullish data) eqn:Hnull.
    + right. eexists. intros s. unfold getNowPlaying.
      step (Hrun s). unfold sync, bind, destructure. rewrite Hnull. reflexivity.
    + destruct (truthy (prop data "access_token")) eqn:Htruthy.
      * left. exists (prop data "access_token"). now exists r, data.
      * right. eexists. intros s. unfold getNowPlaying.
        step (Hrun s). unfold sync, bind, destructure.
        rewrite Hnull, Htruthy. reflexivity.
  - right. exists e. intros s. unfold getNowPlaying. now step (Hrun s).
Qed.

(** The state after [recently_played]. *)
Lemma recently_played_state w access_token s :
  snd (recently_played w access_token s)
  = with_requests s [recently_played_request access_token].
Proof.
  pose proof (recently_played_requests w access_token s) as Hreqs.
  pose proof (keeps_res_recently_played w access_token s) as Hres.
  destruct (snd (recently_played w access_token s)) as [reqs r].
  unfold with_requests. simpl in *. now subst.
Qed.

(** The outcome of [recently_played] does not depend on the state. *)
Lemma recently_played_outcome w access_token s1 s2 :
  fst (recently_played w access_token s1) = fst (recently_played w access_token s2).
Proof.
  unfold recently_played, bind, fetch.
  destruct (upstream w (bearer_request (RECENTLY_PLAYED_ENDPOINT ++ "?limit=1")
                                       access_token)) as [why | r];
    [reflexivity | ].
  destruct (ok r); [ | reflexivity]. simpl.
  unfold json. destruct (payload r) as [why | recentData]; [reflexivity | ].
  unfold ret, sync. simpl.
  destruct (last_track recentData) as [lastTrack | e]; [ | reflexivity].
  now destruct (truthy lastTrack).
Qed.

Lemma recently_played_not_playing w access_token s v s' :
  recently_played w access_token s = (Return v, s') ->
  prop v "status" <> VStr "playing".
Proof.
  intros H. destruct (recently_played_shape w access_token s v s' H)
    as [(Hstatus & His & _) | [[Hstatus _] | Hoffline]].
  - exfalso. revert H Hstatus. unfold recently_played. intros H.
    apply bind_inv in H as [(r & s1 & _ & H) | (e & _ & H)]; [ | discriminate].
    destruct (ok r); simpl in H.
    + apply bind_inv in H as [(recentData & s2 & _ & H) | (e & _ & H)];
        [ | discriminate].
      apply bind_inv in H as [(lastTrack & s3 & _ & H) | (e & _ & H)];
        [ | discriminate].
      destruct (truthy lastTrack).
      * unfold sync in H. inversion H as [[Hresult Hstate]].
        apply last_played_result_inv in Hresult as [Hlast _].
        rewrite Hlast. discriminate.
      * inversion H. discriminate.
    + inversion H. discriminate.
  - rewrite Hstatus. discriminate.
  - subst v. discriminate.
Qed.

(** A token granted and a currently-playing answer that cannot be used:
    [getNowPlaying] throws after two requests. *)
Lemma playback_unreadable_throws w access_token why :
  grants w access_token ->
  now_playing_unreadable w access_token why ->
  exists e,
    message e = why /\ instanceof_Error e = true /\
    forall s,
      getNowPlaying w s
      = (Throw e,
         with_requests s [token_request w; now_playing_request access_token]).
Proof.
  intros Hgrant Hbad.
  assert (Htruthy : truthy access_token = true)
    by (destruct Hgrant as (? & ? & ? & ? & ? & ? & ?); assumption).
  assert (Hprefix : forall s (k : response -> Async value) c,
             (await r := fetch w (now_playing_request access_token) in k r)
               (with_requests s [token_request w])
             = (c, with_requests s [token_request w; now_playing_request access_token]) ->
             (forall r, k r = (fun r =>
                if (status r =? 200)%Z
                then await song := json r in
                     await active := sync (is_active_track song) in
                     if active then sync (playing_result song)
                     else recently_played w access_token
                else recently_played w access_token) r) ->
             getNowPlaying w s
             = (c, with_requests s [token_request w; now_playing_request access_token])).
  { intros s k c Hrun Hk.
    destruct (getAccessToken_granted w access_token s Hgrant) as (data & Hga & Hget).
    unfold getNowPlaying. step Hga.
    unfold sync at 1. unfold bind at 1. rewrite Hget, Htruthy. simpl.
    rewrite <- Hrun. unfold bind, now_playing_request.
    destruct (fetch w (bearer_request NOW_PLAYING_ENDPOINT access_token)
                    (with_requests s [token_request w])) as [[r | e] s1];
      [now rewrite Hk | reflexivity]. }
  destruct Hbad as [Hfails | (r & Hup & Hstatus & Hpay)].
  - exists (TypeError why). split; [reflexivity | ]. split; [reflexivity | ].
    intros s. eapply Hprefix; [ | intros r; reflexivity].
    step (fetch_fails _ _ _ (with_requests s [token_request w]) Hfails).
    now rewrite with_requests_app.
  - exists (SyntaxError why). split; [reflexivity | ]. split; [reflexivity | ].
    intros s. eapply Hprefix; [ | intros r0; reflexivity].
    step (fetch_responds _ _ _ (with_requests s [token_request w]) Hup).
    rewrite with_requests_app. simpl. rewrite Hstatus. simpl.
    now step (json_not_parsed _ _
                (with_requests s [token_request w; now_playing_request access_token])
                Hpay).
Qed.

(** With a token granted and no track playing, the run is the history
    step: one more request, and a result that is not ["playing"]. *)
Lemma history_stage w access_token :
  grants w access_token ->
  nothing_playing w access_token ->
  exists c,
    (forall s,
        getNowPlaying w s
        = (c, with_requests s [token_request w; now_playing_request access_token;
                               recently_played_request access_token])) /\
    (forall s, fst (recently_played w access_token s) = c) /\
    invocation w c [token_request w; now_playing_request access_token;
                    recently_played_request access_token].
Proof.
  intros Hgrant Hnone.
  assert (Htruthy : truthy access_token = true)
    by (destruct Hgrant as (? & ? & ? & ? & ? & ? & ?); assumption).
  exists (fst (recently_played w access_token fresh)).
  split; [ | split].
  - intros s. rewrite (reaches_recently_played w access_token s Hgrant Hnone).
    rewrite (surjective_pairing (recently_played w access_token _)).
    rewrite recently_played_state, with_requests_app. simpl.
    f_equal. apply recently_played_outcome.
  - intros s. apply recently_played_outcome.
  - destruct (fst (recently_played w access_token fresh)) as [v | e] eqn:Hc.
    + apply history_answered; [assumption | ].
      apply (recently_played_not_playing w access_token fresh v
               (snd (recently_played w access_token fresh))).
      now rewrite <- Hc, <- surjective_pairing.
    + now apply history_failed.
Qed.

(** Every run of [getNowPlaying] is of one of five kinds, and neither its
    outcome nor the requests it makes depend on the state it starts in. *)
Lemma getNowPlaying_invocation w :
  exists c l,
    (forall s, getNowPlaying w s = (c, with_requests s l)) /\
    invocation w c l.
Proof.
  destruct (token_stage w) as [(access_token & Hgrant) | (e & Hrun)].
  2: { exists (Throw e), [token_request w]. split; [exact Hrun | constructor]. }
  assert (Htruthy : truthy access_token = true)
    by (destruct Hgrant as (? & ? & ? & ? & ? & ? & ?); assumption).
  assert (Hhistory : nothing_playing w access_token ->
                     exists c l,
                       (forall s, getNowPlaying w s = (c, with_requests s l)) /\
                       invocation w c l).
  { intros Hnone.
    destruct (history_stage w access_token Hgrant Hnone) as (c & Hrun & _ & Hkind).
    now exists c, [token_request w; now_playing_request access_token;
                   recently_played_request access_token]. }
  assert (Hbad : forall why, now_playing_unreadable w access_token why ->
                 exists c l,
                   (forall s, getNowPlaying w s = (c, with_requests s l)) /\
                   invocation w c l).
  { intros why Hwhy.
    destruct (playback_unreadable_throws w access_token why Hgrant Hwhy)
      as (e & _ & _ & Hrun).
    exists (Throw e), [token_request w; now_playing_request access_token].
    split; [exact Hrun | now apply playback_failed]. }
  destruct (upstream w (now_playing_request access_token)) as [why | r] eqn:Hup.
  { apply (Hbad why). left. exact Hup. }
  destruct (Z.eq_dec (status r) 200) as [Hstatus | Hstatus].
  2: { apply Hhistory. exists r. split; [exact Hup | now left]. }
  destruct (payload r) as [why | song] eqn:Hpay.
  { apply (Hbad why). right. exists r. repeat split; assumption. }
  destruct (truthy (prop song "is_playing")) eqn:Hplaying.
  2: { apply Hhistory. exists r. split; [exact Hup | ].
       right. exists song. split; [exact Hpay | now left]. }
  destruct (strict_eq_string (prop (prop song "item") "type") "track") eqn:Htype.
  2: { apply Hhistory. exists r. split; [exact Hup | ].
       right. exists song. split; [exact Hpay | now right]. }
  exists (playing_result song),
         [token_request w; now_playing_request access_token].
  split.
  - intros s.
    exact (returns_playing_result w access_token s r song
             Hgrant Hup Hstatus Hpay Hplaying Htype).
  - destruct (playing_result song) as [v | e] eqn:Hresult.
    + apply track_playing; [assumption | ].
      now apply playing_result_inv in Hresult as [Hs _].
    + now apply playback_failed.
Qed.

(** ** Only instances of [Error] are thrown *)

Lemma raises_errors_return {A} (a : A) : raises_errors (Return a).
Proof. intros e H. discriminate. Qed.

Lemma raises_errors_let {A B} (c : completion A) (k : A -> completion B) :
  raises_errors c -> (forall a, raises_errors (k a)) ->
  raises_errors (bind_completion c k).
Proof.
  intros Hc Hk e H. destruct c as [a | e0]; simpl in H.
  - exact (Hk a e H).
  - apply Hc. congruence.
Qed.

Lemma raises_errors_get v key : raises_errors (get v key).
Proof.
  intros e H. unfold get in H. destruct (nullish v); inversion H. reflexivity.
Qed.

Lemma raises_errors_destructure v key : raises_errors (destructure v key).
Proof.
  intros e H. unfold destructure in H. destruct (nullish v); inversion H.
  reflexivity.
Qed.

Lemma raises_errors_first v : raises_errors (first v).
Proof.
  intros e H. unfold first in H.
  destruct v as [ | | b | n | [ | c rest] | elems | props]; inversion H;
    reflexivity.
Qed.

Lemma raises_errors_map_elems f elems :
  (forall x, raises_errors (f x)) -> raises_errors (map_elems f elems).
Proof.
  intros Hf. induction elems as [ | x rest IH]; simpl.
  - apply raises_errors_return.
  - apply raises_errors_let; [apply Hf | intros y].
    apply raises_errors_let; [exact IH | intros ys].
    apply raises_errors_return.
Qed.

Lemma raises_errors_array_map v f :
  (forall x, raises_errors (f x)) -> raises_errors (array_map v f).
Proof.
  intros Hf. destruct v; simpl;
    try (intros e H; inversion H; reflexivity).
  now apply raises_errors_map_elems.
Qed.

Ltac raises :=
  repeat first
    [ apply raises_errors_return
    | apply raises_errors_get
    | apply raises_errors_destructure
    | apply raises_errors_first
    | apply raises_errors_array_map; intro
    | apply raises_errors_let; [ | intro ]
    | match goal with
      | |- raises_errors (if ?b then _ else _) => destruct b
      end ].

Lemma raises_errors_playing_result song : raises_errors (playing_result song).
Proof. unfold playing_result. raises. Qed.

Lemma raises_errors_last_played_result t : raises_errors (last_played_result t).
Proof. unfold last_played_result. raises. Qed.

Lemma raises_errors_last_track recentData : raises_errors (last_track recentData).
Proof. unfold last_track. raises. Qed.

Lemma raises_errors_is_active_track song : raises_errors (is_active_track song).
Proof. unfold is_active_track. raises. Qed.

Lemma raises_errors_earlier_guard song :
  raises_errors (Earlier.is_active_track song).
Proof. unfold Earlier.is_active_track. raises. Qed.

Lemma raises_errors_no_track_item song : raises_errors (Oldest.no_track_item song).
Proof. unfold Oldest.no_track_item. raises. Qed.

Lemma raises_errors_track_result song : raises_errors (Oldest.track_result song).
Proof. unfold Oldest.track_result. raises. Qed.

Lemma throws_errors_bind {A B} (m : Async A) (k : A -> Async B) :
  throws_errors m -> (forall a, throws_errors (k a)) -> throws_errors (bind m k).
Proof.
  intros Hm Hk s e s' H.
  apply bind_inv in H as [(a & s1 & _ & H) | (e0 & H & He)].
  - exact (Hk a s1 e s' H).
  - inversion He. subst e0. exact (Hm s e s' H).
Qed.

Lemma throws_errors_fetch w req : throws_errors (fetch w req).
Proof.
  intros s e s' H. unfold fetch in H.
  destruct (upstream w req); inversion H. reflexivity.
Qed.

Lemma throws_errors_json r : throws_errors (json r).
Proof.
  intros s e s' H. unfold json in H.
  destruct (payload r); inversion H. reflexivity.
Qed.

Lemma throws_errors_sync {A} (c : completion A) :
  raises_errors c -> throws_errors (sync c).
Proof. intros Hc s e s' H. unfold sync in H. inversion H. now apply Hc. Qed.

Lemma throws_errors_ret {A} (a : A) : throws_errors (ret a).
Proof. intros s e s' H. discriminate. Qed.

Lemma throws_errors_throw {A} message : throws_errors (@throw A (Error message)).
Proof. intros s e s' H. inversion H. reflexivity. Qed.

Create HintDb errors.
#[local] Hint Resolve raises_errors_playing_result raises_errors_last_played_result
  raises_errors_last_track raises_errors_is_active_track
  raises_errors_earlier_guard raises_errors_no_track_item
  raises_errors_track_result raises_errors_destructure : errors.

Ltac throws :=
  repeat first
    [ apply throws_errors_ret
    | apply throws_errors_throw
    | apply throws_errors_fetch
    | apply throws_errors_json
    | apply throws_errors_sync; solve [auto with errors]
    | apply throws_errors_bind; [ | intro ]
    | match goal with
      | |- throws_errors (if ?b then _ else _) => destruct b
      end ].

Lemma throws_errors_getAccessToken w : throws_errors (getAccessToken w).
Proof. unfold getAccessToken. throws. Qed.

Lemma throws_errors_recently_played w access_token :
  throws_errors (recently_played w access_token).
Proof. unfold recently_played. throws. Qed.

Lemma throws_errors_getNowPlaying w : throws_errors (getNowPlaying w).
Proof.
  unfold getNowPlaying.
  apply throws_errors_bind; [apply throws_errors_getAccessToken | intro].
  throws; apply throws_errors_recently_played.
Qed.

Lemma throws_errors_earlier_recently_played w access_token :
  throws_errors (Earlier.recently_played w access_token).
Proof. unfold Earlier.recently_played. throws. Qed.

Lemma throws_errors_earlier_getNowPlaying w : throws_errors (Earlier.getNowPlaying w).
Proof.
  unfold Earlier.getNowPlaying.
  apply throws_errors_bind; [apply throws_errors_getAccessToken | intro].
  throws; apply throws_errors_earlier_recently_played.
Qed.

Lemma throws_errors_oldest_getNowPlaying w : throws_errors (Oldest.getNowPlaying w).
Proof.
  unfold Oldest.getNowPlaying.
  apply throws_errors_bind; [apply throws_errors_getAccessToken | intro].
  throws.
Qed.

(** ** Further properties of api/now-playing.mjs *)

(** X1.  [getAccessToken] makes exactly one request, the token request,
    whatever comes back, and leaves [res] alone.  It returns a value
    exactly when the endpoint answers with a success status and a JSON
    body, and what it returns is that body. *)
Theorem getAccessToken_returns_the_success_body :
  forall w s,
    snd (getAccessToken w s) = with_requests s [token_request w] /\
    (forall data,
        fst (getAccessToken w s) = Return data <->
        exists r, upstream w (token_request w) = Responds r /\
                  ok r = true /\ payload r = JSON data).
Proof.
  intros w s. destruct (getAccessToken_cases w) as (c & Hrun & Hc).
  rewrite (Hrun s). simpl. split; [reflexivity | ].
  intros data. split.
  - intros H. subst c. exact Hc.
  - intros (r & Hup & Hok & Hpay).
    pose proof (Hrun s) as Hs.
    rewrite (getAccessToken_ok w s r data Hup Hok Hpay) in Hs.
    now inversion Hs.
Qed.

(** X2.  When the token request is rejected by the network, or is
    answered (with any status, 200 included) by a body that is not JSON,
    the handler answers 500 with the body
    [{status: 'error', isPlaying: false, error: message}], the message
    being that of the rejection or of the parse failure; no other request
    is made. *)
Theorem unreadable_token_answer_is_fatal :
  forall w s why,
    (upstream w (token_request w) = Fails why \/
     exists r, upstream w (token_request w) = Responds r /\
               payload r = NotJSON why) ->
    handler w s
    = (Return tt,
       {| requests := requests s ++ [token_request w];
          res := {| statusCode := 500;
                    resHeaders := resHeaders (res s);
                    sent := Some (VObj [("status", VStr "error");
                                        ("isPlaying", VBool false);
                                        ("error", VStr why)]) |} |}).
Proof.
  intros w s why Hbad.
  assert (Hrun : exists e,
             getNowPlaying w s = (Throw e, with_requests s [token_request w])
             /\ instanceof_Error e = true /\ message e = why).
  { destruct Hbad as [Hfails | (r & Hup & Hpay)].
    - exists (TypeError why). repeat split.
      unfold getNowPlaying, getAccessToken.
      assert (H : (await response := fetch w (token_request w) in
                   await data := json response in
                   if negb (ok response)
                   then throw (Error ("Spotify token API returned "
                                      ++ show_Z (status response) ++ ": "
                                      ++ JSON_stringify data))
                   else ret data) s
                  = (Throw (TypeError why), with_requests s [token_request w]))
        by (now step (fetch_fails _ _ _ s Hfails)).
      now step H.
    - exists (SyntaxError why). repeat split.
      unfold getNowPlaying, getAccessToken.
      assert (H : (await response := fetch w (token_request w) in
                   await data := json response in
                   if negb (ok response)
                   then throw (Error ("Spotify token API returned "
                                      ++ show_Z (status response) ++ ": "
                                      ++ JSON_stringify data))
                   else ret data) s
                  = (Throw (SyntaxError why), with_requests s [token_request w])).
      { step (fetch_responds _ _ _ s Hup).
        now step (json_not_parsed _ _ (with_requests s [token_request w]) Hpay). }
      now step H. }
  destruct Hrun as (e & Hrun & Hclass & Hmsg).
  rewrite (handler_failure w s e _ Hrun). now rewrite Hclass, Hmsg.
Qed.

(** X3.  When the token endpoint answers with a success status and a
    JSON body whose [access_token] is present but unusable (the empty
    string, [null], [false] or 0), or missing, [getNowPlaying] throws after
    the token request alone and the handler answers 500 with a body of
    status ["error"]; unless the body is [null] itself, what is thrown is
    ['Could not get access token']. *)
Theorem unusable_access_token_is_fatal :
  forall w s r data,
    upstream w (token_request w) = Responds r ->
    ok r = true ->
    payload r = JSON data ->
    truthy (prop data "access_token") = false ->
    exists e,
      getNowPlaying w s = (Throw e, with_requests s [token_request w]) /\
      statusCode (res (snd (handler w s))) = 500 /\
      sent (res (snd (handler w s))) = Some (error_body e) /\
      (nullish data = false -> e = Error "Could not get access token").
Proof.
  intros w s r data Hup Hok Hpay Hfalsy.
  assert (Hrun : exists e,
             getNowPlaying w s = (Throw e, with_requests s [token_request w])
             /\ instanceof_Error e = true
             /\ (nullish data = false -> e = Error "Could not get access token")).
  { destruct (nullish data) eqn:Hnull.
    - eexists. split; [ | split; [ | discriminate]].
      + unfold getNowPlaying.
        step (getAccessToken_ok w s r data Hup Hok Hpay).
        unfold sync, bind, destructure. rewrite Hnull. reflexivity.
      + reflexivity.
    - exists (Error "Could not get access token").
      split; [ | split; reflexivity].
      unfold getNowPlaying.
      step (getAccessToken_ok w s r data Hup Hok Hpay).
      unfold sync, bind, destructure. rewrite Hnull, Hfalsy. reflexivity. }
  destruct Hrun as (e & Hrun & Hclass & Hwhich).
  exists e. split; [exact Hrun | ].
  rewrite (handler_failure w s e _ Hrun). simpl. unfold error_body.
  rewrite Hclass. repeat split. exact Hwhich.
Qed.

(** X4.  With a token granted, when the currently-playing request is
    rejected by the network, or is answered 200 with a body that is not
    JSON, the handler answers 500 with the message of the failure, and the
    history is not asked: the invocation makes two requests. *)
Theorem unreadable_playback_answer_is_fatal :
  forall w s access_token why,
    grants w access_token ->
    now_playing_unreadable w access_token why ->
    handler w s
    = (Return tt,
       {| requests := requests s ++ [token_request w;
                                     now_playing_request access_token];
          res := {| statusCode := 500;
                    resHeaders := resHeaders (res s);
                    sent := Some (VObj [("status", VStr "error");
                                        ("isPlaying", VBool false);
                                        ("error", VStr why)]) |} |}).
Proof.
  intros w s access_token why Hgrant Hbad.
  destruct (playback_unreadable_throws w access_token why Hgrant Hbad)
    as (e & Hmsg & Hclass & Hrun).
  rewrite (handler_failure w s e _ (Hrun s)). now rewrite Hclass, Hmsg.
Qed.

(** X5.  With a token granted and no track playing, when the
    recently-played request is rejected by the network, or is answered
    with a success status and a body that is not JSON, the handler answers
    500 with the message of the failure: unlike an unsuccessful status,
    such a failure is not turned into the offline result. *)
Theorem unreadable_history_answer_is_fatal :
  forall w s access_token why,
    grants w access_token ->
    nothing_playing w access_token ->
    history_unreadable w access_token why ->
    handler w s
    = (Return tt,
       {| requests := requests s ++ [token_request w;
                                     now_playing_request access_token;
                                     recently_played_request access_token];
          res := {| statusCode := 500;
                    resHeaders := resHeaders (res s);
                    sent := Some (VObj [("status", VStr "error");
                                        ("isPlaying", VBool false);
                                        ("error", VStr why)]) |} |}).
Proof.
  intros w s access_token why Hgrant Hnone Hbad.
  assert (Hrun : exists e,
             getNowPlaying w s
             = (Throw e,
                with_requests s [token_request w; now_playing_request access_token;
                                 recently_played_request access_token])
             /\ instanceof_Error e = true /\ message e = why).
  { rewrite (reaches_recently_played w access_token s Hgrant Hnone).
    unfold recently_played. fold (recently_played_request access_token).
    destruct Hbad as [Hfails | (r & Hup & Hok & Hpay)].
    - exists (TypeError why). repeat split.
      step (fetch_fails _ _ _
              (with_requests s [token_request w; now_playing_request access_token])
              Hfails).
      now rewrite with_requests_app.
    - exists (SyntaxError why). repeat split.
      step (fetch_responds _ _ _
              (with_requests s [token_request w; now_playing_request access_token])
              Hup).
      rewrite Hok, with_requests_app. simpl.
      now step (json_not_parsed _ _
                  (with_requests s [token_request w; now_playing_request access_token;
                                    recently_played_request access_token]) Hpay). }
  destruct Hrun as (e & Hrun & Hclass & Hmsg).
  rewrite (handler_failure w s e _ Hrun). now rewrite Hclass, Hmsg.
Qed.

(** X6.  With a token granted and no track playing, when the
    recently-played request succeeds with a JSON body whose first entry
    has no track (the entry is [null], or its [track] is missing, [null]
    or otherwise falsy), [getNowPlaying] returns the offline result,
    whatever the other entries hold. *)
Theorem history_entry_without_track_is_offline :
  forall w s access_token r recentData entry others,
    grants w access_token ->
    nothing_playing w access_token ->
    upstream w (recently_played_request access_token) = Responds r ->
    ok r = true ->
    payload r = JSON recentData ->
    prop recentData "items" = VArr (entry :: others) ->
    truthy (get_optional entry "track") = false ->
    getNowPlaying w s
    = (Return (VObj [("status", VStr "offline"); ("isPlaying", VBool false)]),
       with_requests s [token_request w; now_playing_request access_token;
                        recently_played_request access_token]).
Proof.
  intros w s access_token r recentData entry others
         Hgrant Hnone Hup Hok Hpay Hitems Hfalsy.
  rewrite (reaches_recently_played w access_token s Hgrant Hnone).
  rewrite (recently_played_ok w access_token _ r recentData Hup Hok Hpay).
  rewrite with_requests_app. simpl.
  assert (Hdata : nullish recentData = false).
  { destruct recentData; unfold prop in Hitems; simpl in *; congruence. }
  unfold sync at 1. unfold bind at 1. unfold last_track.
  rewrite (get_present _ Hdata), Hitems. unfold first. simpl.
  now rewrite Hfalsy.
Qed.

(** X7.  An invocation of [getNowPlaying] makes one, two or three
    requests, always in the same order: the token request first, then the
    currently-playing request, then the recently-played request, the last
    two carrying one and the same usable token.  No endpoint is asked
    twice. *)
Theorem getNowPlaying_request_order :
  forall w s,
  exists more,
    requests (snd (getNowPlaying w s))
    = (requests s ++ token_request w :: more)%list /\
    (more = [] \/
     exists access_token,
       truthy access_token = true /\
       (more = [now_playing_request access_token] \/
        more = [now_playing_request access_token;
                recently_played_request access_token])).
Proof.
  intros w s.
  destruct (getNowPlaying_invocation w) as (c & l & Hrun & Hkind).
  rewrite (Hrun s). simpl.
  inversion Hkind; subst; eexists; (split; [reflexivity | ]);
    try (now left); right; exists access_token; auto.
Qed.

(** X8.  When [getNowPlaying] returns a result, the history has been
    asked exactly when the result is not ["playing"]: a ["playing"]
    result comes after two requests, any other result after three. *)
Theorem history_is_asked_unless_a_track_plays :
  forall w s v s',
    getNowPlaying w s = (Return v, s') ->
    exists access_token,
      truthy access_token = true /\
      ((prop v "status" = VStr "playing" /\
        s' = with_requests s [token_request w;
                              now_playing_request access_token]) \/
       (prop v "status" <> VStr "playing" /\
        s' = with_requests s [token_request w;
                              now_playing_request access_token;
                              recently_played_request access_token])).
Proof.
  intros w s v s' H.
  destruct (getNowPlaying_invocation w) as (c & l & Hrun & Hkind).
  rewrite (Hrun s) in H. inversion H. subst c.
  inversion Hkind; subst; exists access_token; auto.
Qed.

(** X9.  The handler always completes, and its HTTP status goes with the
    body it sends: 200 with what [getNowPlaying] returned, whose status is
    ["playing"], ["last_played"] or ["offline"], or 500 with a body of
    status ["error"] when [getNowPlaying] threw. *)
Theorem handler_status_code_matches_body :
  forall w s,
    fst (handler w s) = Return tt /\
    exists data,
      sent (res (snd (handler w s))) = Some data /\
      ((statusCode (res (snd (handler w s))) = 200 /\
        prop data "status" <> VStr "error" /\
        fst (getNowPlaying w s) = Return data) \/
       (statusCode (res (snd (handler w s))) = 500 /\
        prop data "status" = VStr "error" /\
        exists e, fst (getNowPlaying w s) = Throw e)).
Proof.
  intros w s. destruct (getNowPlaying w s) as [[v | e] s'] eqn:Hrun.
  - rewrite (handler_success w s v s' Hrun). simpl.
    split; [reflexivity | ]. exists v. split; [reflexivity | ]. left.
    repeat split.
    destruct (getNowPlaying_shape w s v s' Hrun)
      as [(Hs & _) | [(Hs & _) | Hs]];
      [rewrite Hs | rewrite Hs | subst v]; discriminate.
  - rewrite (handler_failure w s e s' Hrun). simpl.
    split; [reflexivity | ]. eexists. split; [reflexivity | ]. right.
    repeat split. now exists e.
Qed.

(** X10.  Whatever [getNowPlaying] throws is an instance of [Error], so
    the ['Unknown error'] text of the catch clause is never what the
    handler sends: the [error] of the body is the message of what was
    thrown. *)
Theorem handler_reports_the_thrown_message :
  forall w s e s',
    getNowPlaying w s = (Throw e, s') ->
    instanceof_Error e = true /\
    sent (res (snd (handler w s)))
    = Some (VObj [("status", VStr "error");
                  ("isPlaying", VBool false);
                  ("error", VStr (message e))]).
Proof.
  intros w s e s' Hrun.
  pose proof (throws_errors_getNowPlaying w s e s' Hrun) as Hclass.
  split; [exact Hclass | ].
  rewrite (handler_failure w s e s' Hrun). simpl. now rewrite Hclass.
Qed.

(** X11.  When [getNowPlaying] returns, the handler replaces the
    [Content-Type] and [cache-control] headers of [res], whatever the case
    of their names, and leaves every other header as it was. *)
Theorem success_keeps_other_headers :
  forall w s data s' name,
    getNowPlaying w s = (Return data, s') ->
    same_header "Content-Type" name = false ->
    same_header "cache-control" name = false ->
    getHeader (res (snd (handler w s))) name = getHeader (res s) name.
Proof.
  intros w s data s' name Hrun Htype Hcache.
  rewrite (handler_success w s data s' Hrun). simpl. unfold getHeader. simpl.
  now rewrite !lookup_with_other_header.
Qed.

(** ** The earlier revision against the current one *)

Lemma sync_inv {A} (c : completion A) s c' s' :
  sync c s = (c', s') -> c = c' /\ s' = s.
Proof. unfold sync. intros H. inversion H. split; reflexivity. Qed.

(** Off a [null] body the guard of the earlier revision is the guard of
    the current one. *)
Lemma earlier_guard_agrees song :
  nullish song = false ->
  Earlier.is_active_track song = is_active_track song.
Proof.
  intros Hsong. rewrite is_active_track_spec. unfold Earlier.is_active_track.
  rewrite !(get_present _ Hsong). simpl.
  destruct (truthy (prop song "is_playing")); simpl; [ | reflexivity].
  destruct (truthy (prop song "item")) eqn:Hi; simpl.
  - now rewrite (get_present _ (truthy_not_nullish _ Hi)).
  - now rewrite (falsy_prop _ "type" Hi).
Qed.

Lemma earlier_guard_on_null song :
  nullish song = true ->
  Earlier.is_active_track song
  = Throw (TypeError ("Cannot read properties of " ++ describe song
                      ++ " (reading 'is_playing')")).
Proof. intros Hsong. unfold Earlier.is_active_track, get. now rewrite Hsong. Qed.

(** Where the history endpoints of the two revisions answer alike, a
    result of the earlier history step is the result of the current one. *)
Lemma earlier_history_result w access_token s v s' s0 :
  upstream w (earlier_history_request access_token)
  = upstream w (recently_played_request access_token) ->
  Earlier.recently_played w access_token s = (Return v, s') ->
  fst (recently_played w access_token s0) = Return v.
Proof.
  intros Hsame H. unfold Earlier.recently_played in H.
  apply bind_inv in H as [(r & s1 & Hfetch & H) | (e & _ & H)]; [ | discriminate].
  apply fetch_inv in Hfetch. fold (earlier_history_request access_token) in Hfetch.
  rewrite Hsame in Hfetch.
  destruct (ok r) eqn:Hok; simpl in H; [ | discriminate].
  apply bind_inv in H as [(recentData & s2 & Hjson & H) | (e & _ & H)];
    [ | discriminate].
  apply json_inv in Hjson.
  rewrite (recently_played_ok w access_token s0 r recentData Hfetch Hok Hjson).
  apply bind_inv in H as [(lastTrack & s3 & Hlast & H) | (e & _ & H)];
    [ | discriminate].
  apply sync_inv in Hlast as [Hlast _].
  unfold sync at 1. unfold bind at 1. rewrite Hlast.
  destruct (truthy lastTrack).
  - apply sync_inv in H as [H _]. unfold sync. simpl. exact H.
  - inversion H. reflexivity.
Qed.

(** With a token granted and nothing playing for the earlier revision
    (which needs a body other than [null] to say so), the earlier revision
    goes on to its history step. *)
Lemma earlier_reaches_history w access_token s r :
  grants w access_token ->
  upstream w (now_playing_request access_token) = Responds r ->
  (status r <> 200 \/
   exists song, payload r = JSON song /\ nullish song = false /\
                no_track_playing song) ->
  Earlier.getNowPlaying w s
  = Earlier.recently_played w access_token
      (with_requests s [token_request w; now_playing_request access_token]).
Proof.
  intros Hgrant Hup Hnone.
  destruct (getAccessToken_granted w access_token s Hgrant) as (data & Hrun & Hget).
  assert (Htruthy : truthy access_token = true)
    by (destruct Hgrant as (? & ? & ? & ? & ? & ? & ?); assumption).
  unfold Earlier.getNowPlaying.
  change (Earlier.getAccessToken w) with (getAccessToken w).
  step Hrun. unfold sync at 1. unfold bind at 1. rewrite Hget, Htruthy. simpl.
  step (fetch_responds _ _ _ (with_requests s [token_request w]) Hup).
  rewrite with_requests_app. simpl.
  destruct Hnone as [Hstatus | (song & Hpay & Hsong & Hnone)].
  - apply Z.eqb_neq in Hstatus. now rewrite Hstatus.
  - destruct (status r =? 200)%Z; [ | reflexivity].
    step (json_parsed _ _
            (with_requests s [token_request w; now_playing_request access_token]) Hpay).
    unfold sync at 1. unfold bind at 1.
    rewrite (earlier_guard_agrees song Hsong), is_active_track_spec.
    destruct Hnone as [H | H]; rewrite H; [ | rewrite andb_false_r]; reflexivity.
Qed.

(** X13.  The current revision takes over every result of the earlier
    one: on an upstream whose two history endpoints answer alike, whenever
    the earlier [getNowPlaying] returns a result, the current one returns
    the same result. *)
Theorem current_revision_keeps_earlier_results :
  forall w s v s',
    (forall access_token,
        upstream w (earlier_history_request access_token)
        = upstream w (recently_played_request access_token)) ->
    Earlier.getNowPlaying w s = (Return v, s') ->
    fst (getNowPlaying w s) = Return v.
Proof.
  intros w s v s' Hsame H. unfold Earlier.getNowPlaying in H.
  change (Earlier.getAccessToken w) with (getAccessToken w) in H.
  apply bind_inv in H as [(data & s1 & Htoken & H) | (e & _ & H)]; [ | discriminate].
  apply bind_inv in H as [(access_token & s2 & Hget & H) | (e & _ & H)];
    [ | discriminate].
  destruct (truthy access_token) eqn:Htruthy; simpl in H; [ | discriminate].
  apply bind_inv in H as [(r & s3 & Hfetch & H) | (e & _ & H)]; [ | discriminate].
  unfold getNowPlaying. step Htoken. step Hget. rewrite Htruthy. simpl.
  step Hfetch.
  destruct (status r =? 200)%Z.
  - apply bind_inv in H as [(song & s4 & Hjson & H) | (e & _ & H)];
      [ | discriminate].
    step Hjson.
    apply bind_inv in H as [(active & s5 & Hactive & H) | (e & _ & H)];
      [ | discriminate].
    apply sync_inv in Hactive as [Hactive Hstate]. subst s5.
    assert (Hsong : nullish song = false).
    { destruct (nullish song) eqn:Hnull; [ | reflexivity].
      rewrite (earlier_guard_on_null song Hnull) in Hactive. discriminate. }
    rewrite (earlier_guard_agrees song Hsong) in Hactive.
    unfold sync at 1. unfold bind at 1. rewrite Hactive.
    destruct active.
    + apply sync_inv in H as [H _]. unfold sync. simpl. exact H.
    + exact (earlier_history_result w access_token s4 v s' s4
               (Hsame access_token) H).
  - exact (earlier_history_result w access_token s3 v s' s3
             (Hsame access_token) H).
Qed.

(** X14.  A currently-playing answer of status 200 whose JSON body is
    [null] separates the two revisions: the earlier one throws a TypeError
    on reading [is_playing], after two requests, where the current one,
    which tests the body first, goes on to the history. *)
Theorem null_body_throws_in_earlier_revision_only :
  forall w s access_token r,
    grants w access_token ->
    upstream w (now_playing_request access_token) = Responds r ->
    status r = 200 ->
    payload r = JSON VNull ->
    Earlier.getNowPlaying w s
    = (Throw (TypeError "Cannot read properties of null (reading 'is_playing')"),
       with_requests s [token_request w; now_playing_request access_token])
    /\
    getNowPlaying w s
    = recently_played w access_token
        (with_requests s [token_request w; now_playing_request access_token]).
Proof.
  intros w s access_token r Hgrant Hup Hstatus Hpay. split.
  - destruct (getAccessToken_granted w access_token s Hgrant) as (data & Hrun & Hget).
    assert (Htruthy : truthy access_token = true)
      by (destruct Hgrant as (? & ? & ? & ? & ? & ? & ?); assumption).
    unfold Earlier.getNowPlaying.
    change (Earlier.getAccessToken w) with (getAccessToken w).
    step Hrun. unfold sync at 1. unfold bind at 1. rewrite Hget, Htruthy. simpl.
    step (fetch_responds _ _ _ (with_requests s [token_request w]) Hup).
    rewrite with_requests_app. simpl. rewrite Hstatus. simpl.
    step (json_parsed _ _
            (with_requests s [token_request w; now_playing_request access_token]) Hpay).
    reflexivity.
  - apply reaches_recently_played; [assumption | ].
    exists r. split; [assumption | ]. right. exists VNull.
    split; [assumption | now left].
Qed.

Lemma keeps_res_earlier_recently_played w access_token :
  keeps_res (Earlier.recently_played w access_token).
Proof. unfold Earlier.recently_played. frame. Qed.

Lemma keeps_res_earlier_getNowPlaying w : keeps_res (Earlier.getNowPlaying w).
Proof.
  unfold Earlier.getNowPlaying.
  change (Earlier.getAccessToken w) with (getAccessToken w).
  frame; apply keeps_res_earlier_recently_played.
Qed.

Lemma error_message_of_error e :
  instanceof_Error e = true ->
  Earlier.error_message e = Return (VStr (message e)).
Proof. destruct e; simpl; intros H; [reflexivity .. | discriminate]. Qed.

Lemma earlier_handler_success w s data s' :
  Earlier.getNowPlaying w s = (Return data, s') ->
  Earlier.handler w s
  = (Return {| init_status := 200;
               init_headers :=
                 [("Content-Type", "application/json");
                  ("cache-control",
                   "public, s-maxage=10, stale-while-revalidate=5")];
               text := JSON_stringify data |}, s').
Proof.
  intros Hrun. unfold Earlier.handler.
  erewrite try_catch_return; [reflexivity | ]. now step Hrun.
Qed.

Lemma earlier_handler_failure w s e s' :
  Earlier.getNowPlaying w s = (Throw e, s') ->
  Earlier.handler w s
  = (Return {| init_status := 500;
               init_headers := [("Content-Type", "application/json")];
               text := JSON_stringify
                         (VObj [("status", VStr "error");
                                ("isPlaying", VBool false);
                                ("error", VStr (message e))]) |}, s').
Proof.
  intros Hrun.
  pose proof (throws_errors_earlier_getNowPlaying w s e s' Hrun) as Hclass.
  unfold Earlier.handler. erewrite try_catch_throw by (now step Hrun).
  unfold sync, bind, ret. now rewrite (error_message_of_error e Hclass).
Qed.

(** X15.  The handler of the earlier revision always returns a response
    and never touches [res].  The response is either 200 with the headers
    [Content-Type] and [cache-control] and the serialised result of
    [getNowPlaying], or 500 with the [Content-Type] header alone (no
    [cache-control]) and the serialised
    [{status: 'error', isPlaying: false, error: message}]. *)
Theorem earlier_handler_responses :
  forall w s,
    res (snd (Earlier.handler w s)) = res s /\
    ((exists data,
         fst (Earlier.getNowPlaying w s) = Return data /\
         fst (Earlier.handler w s)
         = Return {| init_status := 200;
                     init_headers :=
                       [("Content-Type", "application/json");
                        ("cache-control",
                         "public, s-maxage=10, stale-while-revalidate=5")];
                     text := JSON_stringify data |}) \/
     (exists e,
         fst (Earlier.getNowPlaying w s) = Throw e /\
         fst (Earlier.handler w s)
         = Return {| init_status := 500;
                     init_headers := [("Content-Type", "application/json")];
                     text := JSON_stringify
                               (VObj [("status", VStr "error");
                                      ("isPlaying", VBool false);
                                      ("error", VStr (message e))]) |})).
Proof.
  intros w s.
  pose proof (keeps_res_earlier_getNowPlaying w s) as Hres.
  destruct (Earlier.getNowPlaying w s) as [[data | e] s'] eqn:Hrun;
    simpl in Hres.
  - rewrite (earlier_handler_success w s data s' Hrun). simpl.
    split; [exact Hres | ]. left. now exists data.
  - rewrite (earlier_handler_failure w s e s' Hrun). simpl.
    split; [exact Hres | ]. right. now exists e.
Qed.

(** X16.  In the earlier revision, with a token granted and nothing
    playing, an unsuccessful answer of the history endpoint is fatal:
    [getNowPlaying] throws an [Error] that names the status, after three
    requests, and the handler returns a 500 response. *)
Theorem earlier_history_failure_is_fatal :
  forall w s access_token r answer_,
    grants w access_token ->
    upstream w (now_playing_request access_token) = Responds r ->
    (status r <> 200 \/
     exists song, payload r = JSON song /\ nullish song = false /\
                  no_track_playing song) ->
    upstream w (earlier_history_request access_token) = Responds answer_ ->
    ok answer_ = false ->
    Earlier.getNowPlaying w s
    = (Throw (Error ("Spotify recent-played API returned "
                     ++ show_Z (status answer_))),
       with_requests s [token_request w; now_playing_request access_token;
                        earlier_history_request access_token])
    /\ exists response_,
         fst (Earlier.handler w s) = Return response_ /\
         init_status response_ = 500 /\
         text response_
         = JSON_stringify
             (VObj [("status", VStr "error");
                    ("isPlaying", VBool false);
                    ("error", VStr ("Spotify recent-played API returned "
                                    ++ show_Z (status answer_)))]).
Proof.
  intros w s access_token r answer_ Hgrant Hup Hnone Hhistory Hok.
  assert (Hrun : Earlier.getNowPlaying w s
                 = (Throw (Error ("Spotify recent-played API returned "
                                  ++ show_Z (status answer_))),
                    with_requests s [token_request w;
                                     now_playing_request access_token;
                                     earlier_history_request access_token])).
  { rewrite (earlier_reaches_history w access_token s r Hgrant Hup Hnone).
    unfold Earlier.recently_played.
    fold (earlier_history_request access_token).
    step (fetch_responds _ _ _
            (with_requests s [token_request w; now_playing_request access_token])
            Hhistory).
    rewrite Hok, with_requests_app. reflexivity. }
  split; [exact Hrun | ].
  rewrite (earlier_handler_failure w s _ _ Hrun). simpl.
  eexists. repeat split.
Qed.

(** ** The oldest revision *)

Lemma oldest_handler_success w s data s' :
  Oldest.getNowPlaying w s = (Return data, s') ->
  Oldest.handler w s
  = (Return {| init_status := 200;
               init_headers :=
                 [("Content-Type", "application/json");
                  ("cache-control",
                   "public, s-maxage=30, stale-while-revalidate=15")];
               text := JSON_stringify data |}, s').
Proof.
  intros Hrun. unfold Oldest.handler.
  erewrite try_catch_return; [reflexivity | ]. now step Hrun.
Qed.

Lemma oldest_handler_failure w s e s' :
  Oldest.getNowPlaying w s = (Throw e, s') ->
  Oldest.handler w s
  = (Return {| init_status := 500;
               init_headers := [("Content-Type", "application/json")];
               text := JSON_stringify
                         (VObj [("isPlaying", VBool false);
                                ("error", VStr (message e))]) |}, s').
Proof.
  intros Hrun.
  pose proof (throws_errors_oldest_getNowPlaying w s e s' Hrun) as Hclass.
  unfold Oldest.handler. erewrite try_catch_throw by (now step Hrun).
  unfold sync, bind, ret. now rewrite (error_message_of_error e Hclass).
Qed.

(** Runs the oldest [getNowPlaying] up to the answer [Hup] of its
    playback request, the token [Hgrant] being granted. *)
Ltac oldest_playback_answer Hgrant Hup :=
  match type of Hgrant with
  | grants ?w ?access_token =>
      match goal with
      | |- Oldest.getNowPlaying w ?s = _ =>
          let data := fresh "data" in
          let Hrun := fresh "Hrun" in
          let Hget := fresh "Hget" in
          let Htruthy := fresh "Htruthy" in
          destruct (getAccessToken_granted w access_token s Hgrant)
            as (data & Hrun & Hget);
          assert (Htruthy : truthy access_token = true)
            by (destruct Hgrant as (? & ? & ? & ? & ? & ? & ?); assumption);
          unfold Oldest.getNowPlaying;
          change (Oldest.getAccessToken w) with (getAccessToken w);
          step Hrun; unfold sync at 1; unfold bind at 1;
          rewrite Hget, Htruthy; simpl;
          step (fetch_responds _ _ _ (with_requests s [token_request w]) Hup);
          rewrite with_requests_app; simpl
      end
  end.

(** X17.  In the oldest revision, with a token granted, a playback
    answer of status 204 or 404 gives [{isPlaying: false}] without the
    body being read, and the handler returns a 200 response with that
    object and the [cache-control] header of that revision. *)
Theorem oldest_nothing_playing_statuses :
  forall w s access_token r,
    grants w access_token ->
    upstream w (oldest_now_playing_request access_token) = Responds r ->
    status r = 204 \/ status r = 404 ->
    Oldest.getNowPlaying w s
    = (Return (VObj [("isPlaying", VBool false)]),
       with_requests s [token_request w;
                        oldest_now_playing_request access_token])
    /\ fst (Oldest.handler w s)
       = Return {| init_status := 200;
                   init_headers :=
                     [("Content-Type", "application/json");
                      ("cache-control",
                       "public, s-maxage=30, stale-while-revalidate=15")];
                   text := JSON_stringify (VObj [("isPlaying", VBool false)]) |}.
Proof.
  intros w s access_token r Hgrant Hup Hstatus.
  assert (Hrun : Oldest.getNowPlaying w s
                 = (Return (VObj [("isPlaying", VBool false)]),
                    with_requests s [token_request w;
                                     oldest_now_playing_request access_token])).
  { oldest_playback_answer Hgrant Hup.
    destruct Hstatus as [H | H]; rewrite H; reflexivity. }
  split; [exact Hrun | ].
  now rewrite (oldest_handler_success w s _ _ Hrun).
Qed.

(** X18.  In the oldest revision, with a token granted, a playback
    answer that is not a success and is not a 404 is fatal:
    [getNowPlaying] throws an [Error] that names the status, and the
    handler returns a 500 response whose body is
    [{isPlaying: false, error: message}]. *)
Theorem oldest_upstream_error_is_fatal :
  forall w s access_token r,
    grants w access_token ->
    upstream w (oldest_now_playing_request access_token) = Responds r ->
    ok r = false ->
    status r <> 404 ->
    Oldest.getNowPlaying w s
    = (Throw (Error ("Spotify API returned " ++ show_Z (status r))),
       with_requests s [token_request w;
                        oldest_now_playing_request access_token])
    /\ fst (Oldest.handler w s)
       = Return {| init_status := 500;
                   init_headers := [("Content-Type", "application/json")];
                   text := JSON_stringify
                             (VObj [("isPlaying", VBool false);
                                    ("error",
                                     VStr ("Spotify API returned "
                                           ++ show_Z (status r)))]) |}.
Proof.
  intros w s access_token r Hgrant Hup Hok Hstatus.
  assert (Hrun : Oldest.getNowPlaying w s
                 = (Throw (Error ("Spotify API returned " ++ show_Z (status r))),
                    with_requests s [token_request w;
                                     oldest_now_playing_request access_token])).
  { oldest_playback_answer Hgrant Hup.
    assert (H204 : (status r =? 204)%Z = false).
    { apply Z.eqb_neq. intros H. unfold ok in Hok. rewrite H in Hok.
      discriminate. }
    apply Z.eqb_neq in Hstatus. now rewrite H204, Hstatus, Hok. }
  split; [exact Hrun | ].
  now rewrite (oldest_handler_failure w s _ _ Hrun).
Qed.

(** X19.  In the oldest revision, with a token granted, a successful
    playback answer other than 204 whose JSON body holds a track object of
    type ["track"] gives the data of the track with [isPlaying] as the
    upstream reports it: a paused track is reported with its data and
    [isPlaying] false, where the later revisions turn to the history. *)
Theorem oldest_reports_the_track_even_when_paused :
  forall w s access_token r song item,
    grants w access_token ->
    upstream w (oldest_now_playing_request access_token) = Responds r ->
    ok r = true ->
    status r <> 204 ->
    payload r = JSON song ->
    prop song "item" = item ->
    prop item "type" = VStr "track" ->
    track_object item = true ->
    Oldest.getNowPlaying w s
    = (Return (VObj [("isPlaying", prop song "is_playing");
                     ("trackName", prop item "name");
                     ("artistName", VStr (artist_names item));
                     ("albumArtUrl", album_art item);
                     ("songUrl", prop (prop item "external_urls") "spotify");
                     ("progressMs", prop song "progress_ms");
                     ("durationMs", prop item "duration_ms")]),
       with_requests s [token_request w;
                        oldest_now_playing_request access_token]).
Proof.
  intros w s access_token r song item Hgrant Hup Hok Hstatus Hpay Hitem Htype Htrack.
  destruct (track_object_fields item Htrack)
    as (Ht & (artists & Hartists & Hall) & Halbum & Himages & Hurls).
  assert (Hsong : nullish song = false).
  { destruct song; unfold prop in Hitem; simpl in *; subst; try discriminate;
      reflexivity. }
  assert (Htruthy_item : truthy item = true).
  { destruct item; unfold prop in Htype; simpl in *; try discriminate;
      reflexivity. }
  oldest_playback_answer Hgrant Hup.
  assert (H204 : (status r =? 204)%Z = false) by (now apply Z.eqb_neq).
  assert (H404 : (status r =? 404)%Z = false).
  { apply Z.eqb_neq. intros H. unfold ok in Hok. rewrite H in Hok. discriminate. }
  rewrite H204, H404, Hok. simpl.
  step (json_parsed _ _
          (with_requests s [token_request w;
                            oldest_now_playing_request access_token]) Hpay).
  unfold sync at 1. unfold bind at 1. unfold Oldest.no_track_item.
  rewrite !(get_present _ Hsong), Hitem. simpl. rewrite Htruthy_item. simpl.
  rewrite !(get_present _ Ht), Htype. simpl.
  unfold sync, Oldest.track_result, album_art, artist_names.
  rewrite !(get_present _ Hsong). simpl. rewrite Hitem.
  rewrite !(get_present _ Ht). simpl.
  rewrite Hartists. simpl. rewrite (map_elems_names _ Hall). simpl.
  rewrite !(get_present _ Halbum). simpl.
  rewrite (first_present _ Himages). simpl.
  rewrite !(get_present _ Hurls). simpl.
  reflexivity.
Qed.

(** X20.  In the oldest revision, with a token granted, a successful
    playback answer other than 204 whose JSON body (not [null]) has no
    item, or an item that is not of type ["track"], gives
    [{isPlaying: false}]. *)
Theorem oldest_item_that_is_no_track :
  forall w s access_token r song,
    grants w access_token ->
    upstream w (oldest_now_playing_request access_token) = Responds r ->
    ok r = true ->
    status r <> 204 ->
    payload r = JSON song ->
    nullish song = false ->
    strict_eq_string (prop (prop song "item") "type") "track" = false ->
    Oldest.getNowPlaying w s
    = (Return (VObj [("isPlaying", VBool false)]),
       with_requests s [token_request w;
                        oldest_now_playing_request access_token]).
Proof.
  intros w s access_token r song Hgrant Hup Hok Hstatus Hpay Hsong Htype.
  oldest_playback_answer Hgrant Hup.
  assert (H204 : (status r =? 204)%Z = false) by (now apply Z.eqb_neq).
  assert (H404 : (status r =? 404)%Z = false).
  { apply Z.eqb_neq. intros H. unfold ok in Hok. rewrite H in Hok. discriminate. }
  rewrite H204, H404, Hok. simpl.
  step (json_parsed _ _
          (with_requests s [token_request w;
                            oldest_now_playing_request access_token]) Hpay).
  unfold sync at 1. unfold bind at 1. unfold Oldest.no_track_item.
  rewrite !(get_present _ Hsong). simpl.
  destruct (truthy (prop song "item")) eqn:Hitem; simpl; [ | reflexivity].
  rewrite (get_present _ (truthy_not_nullish _ Hitem)). simpl.
  now rewrite Htype.
Qed.

(** X21.  The oldest revision never asks for the history: an invocation
    of its [getNowPlaying] makes the token request and at most one more
    request, to its playback endpoint, with a usable token. *)
Theorem oldest_makes_at_most_two_requests :
  forall w s,
  exists more,
    requests (snd (Oldest.getNowPlaying w s))
    = (requests s ++ token_request w :: more)%list /\
    (more = [] \/
     exists access_token,
       truthy access_token = true /\
       more = [oldest_now_playing_request access_token]).
Proof.
  intros w s. unfold Oldest.getNowPlaying.
  change (Oldest.getAccessToken w) with (getAccessToken w).
  destruct (getAccessToken_cases w) as (c & Hrun & _).
  unfold bind at 1. rewrite (Hrun s).
  destruct c as [data | e]; [ | exists []; split; [reflexivity | now left]].
  unfold sync at 1. unfold bind at 1.
  destruct (destructure data "access_token") as [access_token | e];
    [ | exists []; split; [reflexivity | now left]].
  destruct (truthy access_token) eqn:Htruthy; simpl;
    [ | exists []; split; [reflexivity | now left]].
  exists [oldest_now_playing_request access_token].
  split; [ | right; now exists access_token].
  unfold bind at 1, fetch. fold (oldest_now_playing_request access_token).
  destruct (upstream w (oldest_now_playing_request access_token)) as [why | r];
    simpl; [now rewrite <- app_assoc | ].
  destruct (status r =? 204)%Z; simpl; [now rewrite <- app_assoc | ].
  destruct (status r =? 404)%Z; simpl; [now rewrite <- app_assoc | ].
  destruct (ok r); simpl; [ | now rewrite <- app_assoc].
  unfold bind at 1, json.
  destruct (payload r) as [why | song]; simpl; [now rewrite <- app_assoc | ].
  unfold bind, sync, ret.
  destruct (Oldest.no_track_item song) as [[ | ] | e]; simpl;
    now rewrite <- app_assoc.
Qed.

(** X22.  The handler of the oldest revision always returns a response:
    200 with the serialised result and the header
    [cache-control: public, s-maxage=30, stale-while-revalidate=15], or
    500 with the [Content-Type] header alone and the serialised
    [{isPlaying: false, error: message}], the message being that of what
    [getNowPlaying] threw. *)
Theorem oldest_handler_responses :
  forall w s,
    (exists data,
        fst (Oldest.getNowPlaying w s) = Return data /\
        fst (Oldest.handler w s)
        = Return {| init_status := 200;
                    init_headers :=
                      [("Content-Type", "application/json");
                       ("cache-control",
                        "public, s-maxage=30, stale-while-revalidate=15")];
                    text := JSON_stringify data |}) \/
    (exists e,
        fst (Oldest.getNowPlaying w s) = Throw e /\
        fst (Oldest.handler w s)
        = Return {| init_status := 500;
                    init_headers := [("Content-Type", "application/json")];
                    text := JSON_stringify
                              (VObj [("isPlaying", VBool false);
                                     ("error", VStr (message e))]) |}).
Proof.
  intros w s.
  destruct (Oldest.getNowPlaying w s) as [[data | e] s'] eqn:Hrun.
  - left. exists data. now rewrite (oldest_handler_success w s data s' Hrun).
  - right. exists e. now rewrite (oldest_handler_failure w s e s' Hrun).
Qed.

(** ** The further properties at sample upstream states *)

Lemma unreadable_token_answer_is_fatal_witness :
  handler world_token_unreachable fresh
  = (Return tt,
     {| requests := [token_request world_token_unreachable];
        res := {| statusCode := 500;
                  resHeaders := [];
                  sent := Some (VObj [("status", VStr "error");
                                      ("isPlaying", VBool false);
                                      ("error", VStr "fetch failed")]) |} |}).
Proof.
  exact (unreadable_token_answer_is_fatal
           world_token_unreachable fresh "fetch failed" (or_introl eq_refl)).
Defined.

Lemma unusable_access_token_is_fatal_witness :
  exists e,
    getNowPlaying world_empty_access_token fresh
    = (Throw e, with_requests fresh [token_request world_empty_access_token])
    /\ e = Error "Could not get access token".
Proof.
  destruct (unusable_access_token_is_fatal
              world_empty_access_token fresh
              {| status := 200;
                 payload := JSON (VObj [("access_token", VStr "")]) |}
              (VObj [("access_token", VStr "")])
              eq_refl eq_refl eq_refl eq_refl)
    as (e & Hrun & _ & _ & Hwhich).
  exists e. split; [exact Hrun | exact (Hwhich eq_refl)].
Defined.

Lemma unreadable_playback_answer_is_fatal_witness :
  statusCode (res (snd (handler world_playback_unreachable fresh))) = 500
  /\ requests (snd (handler world_playback_unreachable fresh))
     = [token_request world_playback_unreachable;
        now_playing_request (VStr "BQDx")].
Proof.
  assert (Hgrant : grants world_playback_unreachable (VStr "BQDx"))
    by sample_token_granted.
  rewrite (unreadable_playback_answer_is_fatal
             world_playback_unreachable fresh (VStr "BQDx") "fetch failed"
             Hgrant (or_introl eq_refl)).
  split; reflexivity.
Defined.

Lemma unreadable_history_answer_is_fatal_witness :
  statusCode (res (snd (handler world_history_unreachable fresh))) = 500
  /\ sent (res (snd (handler world_history_unreachable fresh)))
     = Some (VObj [("status", VStr "error");
                   ("isPlaying", VBool false);
                   ("error", VStr "fetch failed")]).
Proof.
  assert (Hgrant : grants world_history_unreachable (VStr "BQDx"))
    by sample_token_granted.
  assert (Hnone : nothing_playing world_history_unreachable (VStr "BQDx"))
    by sample_nothing_playing.
  rewrite (unreadable_history_answer_is_fatal
             world_history_unreachable fresh (VStr "BQDx") "fetch failed"
             Hgrant Hnone (or_introl eq_refl)).
  split; reflexivity.
Defined.

Lemma history_entry_without_track_is_offline_witness :
  fst (getNowPlaying world_history_without_track fresh) = Return offline.
Proof.
  assert (Hgrant : grants world_history_without_track (VStr "BQDx"))
    by sample_token_granted.
  assert (Hnone : nothing_playing world_history_without_track (VStr "BQDx"))
    by sample_nothing_playing.
  rewrite (history_entry_without_track_is_offline
             world_history_without_track fresh (VStr "BQDx")
             {| status := 200; payload := JSON history_without_track |}
             history_without_track (VObj [("track", VNull)]) []
             Hgrant Hnone eq_refl eq_refl eq_refl eq_refl eq_refl).
  reflexivity.
Defined.

Lemma history_is_asked_unless_a_track_plays_witness :
  exists access_token,
    requests (snd (getNowPlaying world_playing fresh))
    = [token_request world_playing; now_playing_request access_token]
    \/ requests (snd (getNowPlaying world_playing fresh))
       = [token_request world_playing; now_playing_request access_token;
          recently_played_request access_token].
Proof.
  destruct (history_is_asked_unless_a_track_plays
              world_playing fresh
              (VObj [("status", VStr "playing");
                     ("isPlaying", VBool true);
                     ("trackName", VStr "Blue in Green");
                     ("artistName", VStr "Miles Davis, Bill Evans");
                     ("albumArtUrl", VStr "https://i.scdn.co/image/ab67");
                     ("songUrl", VStr "https://open.spotify.com/track/0aWMVrwx");
                     ("progressMs", VNum 41000);
                     ("durationMs", VNum 337000)])
              (snd (getNowPlaying world_playing fresh))
              eq_refl)
    as (access_token & _ & [[_ Hs] | [_ Hs]]);
    exists access_token; [left | right]; rewrite Hs; reflexivity.
Defined.

Lemma handler_reports_the_thrown_message_witness :
  sent (res (snd (handler world_gateway_error fresh)))
  = Some (VObj [("status", VStr "error");
                ("isPlaying", VBool false);
                ("error", VStr "Unexpected token < in JSON at position 0")]).
Proof.
  exact (proj2 (handler_reports_the_thrown_message
                  world_gateway_error fresh
                  (SyntaxError "Unexpected token < in JSON at position 0")
                  (with_requests fresh [token_request world_gateway_error])
                  eq_refl)).
Defined.

Lemma success_keeps_other_headers_witness :
  getHeader (res (snd (handler world_playing used))) "x-powered-by"
  = Some "Express".
Proof.
  rewrite (success_keeps_other_headers
             world_playing used
             (VObj [("status", VStr "playing");
                    ("isPlaying", VBool true);
                    ("trackName", VStr "Blue in Green");
                    ("artistName", VStr "Miles Davis, Bill Evans");
                    ("albumArtUrl", VStr "https://i.scdn.co/image/ab67");
                    ("songUrl", VStr "https://open.spotify.com/track/0aWMVrwx");
                    ("progressMs", VNum 41000);
                    ("durationMs", VNum 337000)])
             (snd (getNowPlaying world_playing used))
             "x-powered-by" eq_refl eq_refl eq_refl).
  reflexivity.
Defined.

Lemma current_revision_keeps_earlier_results_witness :
  fst (getNowPlaying world_idle fresh)
  = fst (Earlier.getNowPlaying world_idle fresh).
Proof.
  rewrite (current_revision_keeps_earlier_results
             world_idle fresh
             (VObj [("status", VStr "last_played");
                    ("isPlaying", VBool false);
                    ("trackName", VStr "Blue in Green");
                    ("artistName", VStr "Miles Davis, Bill Evans");
                    ("albumArtUrl", VStr "https://i.scdn.co/image/ab67");
                    ("songUrl", VStr "https://open.spotify.com/track/0aWMVrwx");
                    ("progressMs", VNum 0);
                    ("durationMs", VNum 337000)])
             (snd (Earlier.getNowPlaying world_idle fresh))
             (fun access_token => eq_refl) eq_refl).
  reflexivity.
Defined.

Lemma null_body_throws_in_earlier_revision_only_witness :
  fst (Earlier.getNowPlaying world_null_song fresh)
  = Throw (TypeError "Cannot read properties of null (reading 'is_playing')").
Proof.
  assert (Hgrant : grants world_null_song (VStr "BQDx")) by sample_token_granted.
  rewrite (proj1 (null_body_throws_in_earlier_revision_only
                    world_null_song fresh (VStr "BQDx")
                    {| status := 200; payload := JSON VNull |}
                    Hgrant eq_refl eq_refl eq_refl)).
  reflexivity.
Defined.

Lemma earlier_history_failure_is_fatal_witness :
  fst (Earlier.getNowPlaying world_history_down fresh)
  = Throw (Error "Spotify recent-played API returned 500").
Proof.
  assert (Hgrant : grants world_history_down (VStr "BQDx")) by sample_token_granted.
  assert (Hne : 204 <> 200) by lia.
  rewrite (proj1 (earlier_history_failure_is_fatal
                    world_history_down fresh (VStr "BQDx")
                    {| status := 204;
                       payload := NotJSON "Unexpected end of JSON input" |}
                    {| status := 500;
                       payload := JSON (VObj [("error", VStr "server error")]) |}
                    Hgrant eq_refl
                    (or_introl Hne)
                    eq_refl eq_refl)).
  reflexivity.
Defined.

Lemma oldest_nothing_playing_statuses_witness :
  fst (Oldest.getNowPlaying
         (oldest_world (answer 200 sample_token) (no_content 404)) fresh)
  = Return (VObj [("isPlaying", VBool false)]).
Proof.
  assert (Hgrant : grants (oldest_world (answer 200 sample_token) (no_content 404))
                          (VStr "BQDx")) by sample_token_granted.
  rewrite (proj1 (oldest_nothing_playing_statuses
                    (oldest_world (answer 200 sample_token) (no_content 404))
                    fresh (VStr "BQDx")
                    {| status := 404;
                       payload := NotJSON "Unexpected end of JSON input" |}
                    Hgrant eq_refl (or_intror eq_refl))).
  reflexivity.
Defined.

Lemma oldest_upstream_error_is_fatal_witness :
  fst (Oldest.getNowPlaying
         (oldest_world (answer 200 sample_token) (no_content 500)) fresh)
  = Throw (Error "Spotify API returned 500").
Proof.
  assert (Hgrant : grants (oldest_world (answer 200 sample_token) (no_content 500))
                          (VStr "BQDx")) by sample_token_granted.
  assert (Hne : 500 <> 404) by lia.
  rewrite (proj1 (oldest_upstream_error_is_fatal
                    (oldest_world (answer 200 sample_token) (no_content 500))
                    fresh (VStr "BQDx")
                    {| status := 500;
                       payload := NotJSON "Unexpected end of JSON input" |}
                    Hgrant eq_refl eq_refl Hne)).
  reflexivity.
Defined.

Lemma oldest_reports_the_track_even_when_paused_witness :
  fst (Oldest.getNowPlaying
         (oldest_world (answer 200 sample_token) (answer 200 sample_paused)) fresh)
  = Return (VObj [("isPlaying", VBool false);
                  ("trackName", VStr "Blue in Green");
                  ("artistName", VStr "Miles Davis, Bill Evans");
                  ("albumArtUrl", VStr "https://i.scdn.co/image/ab67");
                  ("songUrl", VStr "https://open.spotify.com/track/0aWMVrwx");
                  ("progressMs", VNum 41000);
                  ("durationMs", VNum 337000)]).
Proof.
  assert (Hgrant : grants (oldest_world (answer 200 sample_token)
                                        (answer 200 sample_paused))
                          (VStr "BQDx")) by sample_token_granted.
  assert (Hne : 200 <> 204) by lia.
  rewrite (oldest_reports_the_track_even_when_paused
             (oldest_world (answer 200 sample_token) (answer 200 sample_paused))
             fresh (VStr "BQDx")
             {| status := 200; payload := JSON sample_paused |}
             sample_paused sample_track
             Hgrant eq_refl eq_refl
             Hne
             eq_refl eq_refl eq_refl eq_refl).
  reflexivity.
Defined.

Lemma oldest_item_that_is_no_track_witness :
  fst (Oldest.getNowPlaying
         (oldest_world (answer 200 sample_token)
                       (answer 200 (VObj [("is_playing", VBool true);
                                          ("item", VObj [("type", VStr "episode")])])))
         fresh)
  = Return (VObj [("isPlaying", VBool false)]).
Proof.
  assert (Hgrant : grants (oldest_world
                             (answer 200 sample_token)
                             (answer 200 (VObj [("is_playing", VBool true);
                                                ("item", VObj [("type", VStr "episode")])])))
                          (VStr "BQDx")) by sample_token_granted.
  assert (Hne : 200 <> 204) by lia.
  rewrite (oldest_item_that_is_no_track
             _ fresh (VStr "BQDx")
             {| status := 200;
                payload := JSON (VObj [("is_playing", VBool true);
                                       ("item", VObj [("type", VStr "episode")])]) |}
             (VObj [("is_playing", VBool true);
                    ("item", VObj [("type", VStr "episode")])])
             Hgrant eq_refl eq_refl
             Hne
             eq_refl eq_refl eq_refl).
  reflexivity.
Defined.
